(** * VLC interface glue: the Qt main context and the macOS video window

    A shallow embedding of two pieces of the player's presentation layer:

    - [Qt]: the part of [MainCtx] (main_interface.cpp, which the sources
      carry after the window provider in window_macosx.m) that stores the
      observable interface state, loads it from the persisted settings and
      ingests drag-and-drop events;
    - [MacOSX]: the standalone video window provider (window_macosx.m): the
      module delegate with its serial event queue, the window controller,
      the content view and the module callbacks.

    Functions keep the names they have in the sources.  Code that mutates
    an object is written as a function from the object to its new value;
    code that also emits signals or reports events returns the emitted
    items in order. *)

From Stdlib Require Import ZArith QArith Qround Bool List Lia.
From Stdlib Require Import Floats.SpecFloat.
From stdpp Require Import gmap strings.
Import ListNotations.

Close Scope Q_scope.
Local Open Scope Z_scope.

(** ** C++ [double] values

    A [double] is a [spec_float] in binary64 format (53 bits of precision,
    infinities at exponent 1024).  The comparisons [==], [!=], [>] of the
    sources are IEEE comparisons: [SFeqb], its negation and [SFltb]. *)
Module Double.

Definition prec : Z := 53.
Definition emax : Z := 1024.

Definition double : Type := spec_float.

(** Conversion of an integer literal or integer value to [double]. *)
Definition of_Z (z : Z) : double := binary_normalize prec emax z 0 false.

Definition zero : double := S754_zero false.
Definition one : double := Eval vm_compute in of_Z 1.
Definition minus_one : double := Eval vm_compute in of_Z (-1).
Definition four : double := Eval vm_compute in of_Z 4.
Definition ninety_six : double := Eval vm_compute in of_Z 96.

Definition eqb (x y : double) : bool := SFeqb x y.
Definition neqb (x y : double) : bool := negb (SFeqb x y).
Definition ltb (x y : double) : bool := SFltb x y.
Definition leb (x y : double) : bool := SFleb x y.
Definition mul (x y : double) : double := SFmul prec emax x y.
Definition div (x y : double) : double := SFdiv prec emax x y.

(** The value a [double] has after it went through a C [float] variable:
    rounded to binary32 (24 bits, infinities at exponent 128) and promoted
    back to binary64, which is exact. *)
Definition through_float (x : double) : double :=
  match x with
  | S754_finite s m e =>
      match binary_round 24 128 s m e with
      | S754_finite s' m' e' => binary_round prec emax s' m' e'
      | y => y
      end
  | _ => x
  end.

(** Rounding of a finite value to the nearest integer, halves away from
    zero, which is how a variant holding a [double] is read as an integer. *)
Definition round (x : double) : Z :=
  match x with
  | S754_finite s m e =>
      let a := match e with
               | Zneg p => Z.shiftr (Zpos m + Z.shiftl 1 (Zpos p - 1)) (Zpos p)
               | _ => Z.shiftl (Zpos m) e
               end in
      if s then - a else a
  | _ => 0
  end.

End Double.

Abbreviation double := Double.double.

(** ** The Qt main context (main_interface.cpp) *)
Module Qt.

(** Modelled from the spec: the [Grouping] enumeration is declared in
    mainctx.hpp, which is not among the sources; the spec only names its
    default, NONE.  A C++ enumeration is an integer with named values, and
    a persisted integer converts to it unchanged. *)
Definition Grouping : Type := Z.
Definition GROUPING_NONE : Grouping := 0.

(** Modelled from the spec: [ColorSchemeModel] (its [ColorScheme]
    enumeration, [currentScheme] and [setCurrentScheme]) is not among the
    sources; the spec names the default, SYSTEM.  The model keeps the
    current scheme, and setting it stores the value and signals the
    change. *)
Definition ColorScheme : Type := Z.
Definition ColorScheme_System : ColorScheme := 0.

(** The members of [MainCtx] that the modelled methods read or write. *)
Record MainCtx : Type := mkMainCtx {
  b_playlistDocked : bool;
  playlistVisible : bool;
  playlistWidthFactor : double;
  m_showRemainingTime : bool;
  m_gridView : bool;
  m_grouping : Grouping;
  b_interfaceOnTop : bool;
  m_pinVideoControls : bool;
  m_hasAcrylicSurface : bool;
  m_acrylicActive : bool;
  m_preferHotkeys : bool;
  m_colorScheme : ColorScheme;
  m_intfUserScaleFactor : double;
  m_intfScaleFactor : double
}.

(** Assignment to one member. *)
Definition set_b_playlistDocked (v : bool) (c : MainCtx) : MainCtx :=
  mkMainCtx v (playlistVisible c) (playlistWidthFactor c)
    (m_showRemainingTime c) (m_gridView c) (m_grouping c)
    (b_interfaceOnTop c) (m_pinVideoControls c) (m_hasAcrylicSurface c)
    (m_acrylicActive c) (m_preferHotkeys c) (m_colorScheme c)
    (m_intfUserScaleFactor c) (m_intfScaleFactor c).
Definition set_playlistVisible (v : bool) (c : MainCtx) : MainCtx :=
  mkMainCtx (b_playlistDocked c) v (playlistWidthFactor c)
    (m_showRemainingTime c) (m_gridView c) (m_grouping c)
    (b_interfaceOnTop c) (m_pinVideoControls c) (m_hasAcrylicSurface c)
    (m_acrylicActive c) (m_preferHotkeys c) (m_colorScheme c)
    (m_intfUserScaleFactor c) (m_intfScaleFactor c).
Definition set_playlistWidthFactor (v : double) (c : MainCtx) : MainCtx :=
  mkMainCtx (b_playlistDocked c) (playlistVisible c) v
    (m_showRemainingTime c) (m_gridView c) (m_grouping c)
    (b_interfaceOnTop c) (m_pinVideoControls c) (m_hasAcrylicSurface c)
    (m_acrylicActive c) (m_preferHotkeys c) (m_colorScheme c)
    (m_intfUserScaleFactor c) (m_intfScaleFactor c).
Definition set_m_showRemainingTime (v : bool) (c : MainCtx) : MainCtx :=
  mkMainCtx (b_playlistDocked c) (playlistVisible c)
    (playlistWidthFactor c) v (m_gridView c) (m_grouping c)
    (b_interfaceOnTop c) (m_pinVideoControls c) (m_hasAcrylicSurface c)
    (m_acrylicActive c) (m_preferHotkeys c) (m_colorScheme c)
    (m_intfUserScaleFactor c) (m_intfScaleFactor c).
Definition set_m_gridView (v : bool) (c : MainCtx) : MainCtx :=
  mkMainCtx (b_playlistDocked c) (playlistVisible c)
    (playlistWidthFactor c) (m_showRemainingTime c) v (m_grouping c)
    (b_interfaceOnTop c) (m_pinVideoControls c) (m_hasAcrylicSurface c)
    (m_acrylicActive c) (m_preferHotkeys c) (m_colorScheme c)
    (m_intfUserScaleFactor c) (m_intfScaleFactor c).
Definition set_m_grouping (v : Grouping) (c : MainCtx) : MainCtx :=
  mkMainCtx (b_playlistDocked c) (playlistVisible c)
    (playlistWidthFactor c) (m_showRemainingTime c) (m_gridView c) v
    (b_interfaceOnTop c) (m_pinVideoControls c) (m_hasAcrylicSurface c)
    (m_acrylicActive c) (m_preferHotkeys c) (m_colorScheme c)
    (m_intfUserScaleFactor c) (m_intfScaleFactor c).
Definition set_b_interfaceOnTop (v : bool) (c : MainCtx) : MainCtx :=
  mkMainCtx (b_playlistDocked c) (playlistVisible c)
    (playlistWidthFactor c) (m_showRemainingTime c) (m_gridView c)
    (m_grouping c) v (m_pinVideoControls c) (m_hasAcrylicSurface c)
    (m_acrylicActive c) (m_preferHotkeys c) (m_colorScheme c)
    (m_intfUserScaleFactor c) (m_intfScaleFactor c).
Definition set_m_pinVideoControls (v : bool) (c : MainCtx) : MainCtx :=
  mkMainCtx (b_playlistDocked c) (playlistVisible c)
    (playlistWidthFactor c) (m_showRemainingTime c) (m_gridView c)
    (m_grouping c) (b_interfaceOnTop c) v (m_hasAcrylicSurface c)
    (m_acrylicActive c) (m_preferHotkeys c) (m_colorScheme c)
    (m_intfUserScaleFactor c) (m_intfScaleFactor c).
Definition set_m_hasAcrylicSurface (v : bool) (c : MainCtx) : MainCtx :=
  mkMainCtx (b_playlistDocked c) (playlistVisible c)
    (playlistWidthFactor c) (m_showRemainingTime c) (m_gridView c)
    (m_grouping c) (b_interfaceOnTop c) (m_pinVideoControls c) v
    (m_acrylicActive c) (m_preferHotkeys c) (m_colorScheme c)
    (m_intfUserScaleFactor c) (m_intfScaleFactor c).
Definition set_m_acrylicActive (v : bool) (c : MainCtx) : MainCtx :=
  mkMainCtx (b_playlistDocked c) (playlistVisible c)
    (playlistWidthFactor c) (m_showRemainingTime c) (m_gridView c)
    (m_grouping c) (b_interfaceOnTop c) (m_pinVideoControls c)
    (m_hasAcrylicSurface c) v (m_preferHotkeys c) (m_colorScheme c)
    (m_intfUserScaleFactor c) (m_intfScaleFactor c).
Definition set_m_preferHotkeys (v : bool) (c : MainCtx) : MainCtx :=
  mkMainCtx (b_playlistDocked c) (playlistVisible c)
    (playlistWidthFactor c) (m_showRemainingTime c) (m_gridView c)
    (m_grouping c) (b_interfaceOnTop c) (m_pinVideoControls c)
    (m_hasAcrylicSurface c) (m_acrylicActive c) v (m_colorScheme c)
    (m_intfUserScaleFactor c) (m_intfScaleFactor c).
Definition set_m_colorScheme (v : ColorScheme) (c : MainCtx) : MainCtx :=
  mkMainCtx (b_playlistDocked c) (playlistVisible c)
    (playlistWidthFactor c) (m_showRemainingTime c) (m_gridView c)
    (m_grouping c) (b_interfaceOnTop c) (m_pinVideoControls c)
    (m_hasAcrylicSurface c) (m_acrylicActive c) (m_preferHotkeys c) v
    (m_intfUserScaleFactor c) (m_intfScaleFactor c).
Definition set_m_intfUserScaleFactor (v : double) (c : MainCtx) : MainCtx :=
  mkMainCtx (b_playlistDocked c) (playlistVisible c)
    (playlistWidthFactor c) (m_showRemainingTime c) (m_gridView c)
    (m_grouping c) (b_interfaceOnTop c) (m_pinVideoControls c)
    (m_hasAcrylicSurface c) (m_acrylicActive c) (m_preferHotkeys c)
    (m_colorScheme c) v (m_intfScaleFactor c).
Definition set_m_intfScaleFactor (v : double) (c : MainCtx) : MainCtx :=
  mkMainCtx (b_playlistDocked c) (playlistVisible c)
    (playlistWidthFactor c) (m_showRemainingTime c) (m_gridView c)
    (m_grouping c) (b_interfaceOnTop c) (m_pinVideoControls c)
    (m_hasAcrylicSurface c) (m_acrylicActive c) (m_preferHotkeys c)
    (m_colorScheme c) (m_intfUserScaleFactor c) v.


(** *** Signals and the method monad

    A method of [MainCtx] runs on the current object, may change it, and
    emits signals.  [M A] is the type of such a method returning an [A]: it
    maps the object to the result, the new object and the signals emitted,
    in emission order. *)
Inductive Signal : Type :=
| playlistDockedChanged (docked : bool)
| playlistVisibleChanged (visible : bool)
| playlistWidthFactorChanged (factor : double)
| showRemainingTimeChanged (show : bool)
| gridViewChanged (asGrid : bool)
| groupingChanged (grouping : Grouping)
| interfaceAlwaysOnTopChanged (on_top : bool)
| pinVideoControlsChanged (pinned : bool)
| hasAcrylicSurfaceChanged
| acrylicActiveChanged
| preferHotkeysChanged
| intfScaleFactorChanged
| colorSchemeChanged (scheme : ColorScheme).

Definition M (A : Type) : Type := MainCtx -> A * MainCtx * list Signal.

Definition ret {A : Type} (a : A) : M A := fun c => (a, c, []).

Definition bind {A B : Type} (m : M A) (k : A -> M B) : M B :=
  fun c =>
    let '(a, c1, s1) := m c in
    let '(b, c2, s2) := k a c1 in
    (b, c2, s1 ++ s2).

Definition read {A : Type} (member : MainCtx -> A) : M A :=
  fun c => (member c, c, []).

Definition assign {A : Type} (set : A -> MainCtx -> MainCtx) (v : A) : M unit :=
  fun c => (tt, set v c, []).

Definition emit (s : Signal) : M unit := fun c => (tt, c, [s]).

Declare Scope method_scope.
Delimit Scope method_scope with method.
Notation "x <- m ;; k" := (bind m (fun x => k))
  (at level 100, m at next level, k at level 200, right associativity)
  : method_scope.
Notation "m ;; k" := (bind m (fun _ => k))
  (at level 100, k at level 200, right associativity) : method_scope.
Local Open Scope method_scope.

(** The object and the signals a method leaves behind. *)
Definition ctx_of {A : Type} (r : A * MainCtx * list Signal) : MainCtx :=
  snd (fst r).
Definition signals_of {A : Type} (r : A * MainCtx * list Signal) : list Signal :=
  snd r.

(** *** Setters of the observable state *)

Definition setHasAcrylicSurface (v : bool) : M unit :=
  cur <- read m_hasAcrylicSurface ;;
  if Bool.eqb cur v then ret tt
  else assign set_m_hasAcrylicSurface v ;; emit hasAcrylicSurfaceChanged.

Definition setPinVideoControls (pinVideoControls : bool) : M unit :=
  cur <- read m_pinVideoControls ;;
  if Bool.eqb cur pinVideoControls then ret tt
  else
    assign set_m_pinVideoControls pinVideoControls ;;
    now <- read m_pinVideoControls ;;
    emit (pinVideoControlsChanged now).

Definition setPlaylistDocked (docked : bool) : M unit :=
  assign set_b_playlistDocked docked ;;
  emit (playlistDockedChanged docked).

Definition setPlaylistVisible (visible : bool) : M unit :=
  assign set_playlistVisible visible ;;
  emit (playlistVisibleChanged visible).

Definition setPlaylistWidthFactor (factor : double) : M unit :=
  if Double.ltb Double.zero factor then
    assign set_playlistWidthFactor factor ;;
    emit (playlistWidthFactorChanged factor)
  else ret tt.

Definition setShowRemainingTime (show : bool) : M unit :=
  assign set_m_showRemainingTime show ;;
  emit (showRemainingTimeChanged show).

Definition setGridView (asGrid : bool) : M unit :=
  assign set_m_gridView asGrid ;;
  emit (gridViewChanged asGrid).

Definition setGrouping (grouping : Grouping) : M unit :=
  assign set_m_grouping grouping ;;
  emit (groupingChanged grouping).

Definition setInterfaceAlwaysOnTop (on_top : bool) : M unit :=
  assign set_b_interfaceOnTop on_top ;;
  emit (interfaceAlwaysOnTopChanged on_top).

Definition setAcrylicActive (newAcrylicActive : bool) : M unit :=
  cur <- read m_acrylicActive ;;
  if Bool.eqb cur newAcrylicActive then ret tt
  else assign set_m_acrylicActive newAcrylicActive ;; emit acrylicActiveChanged.

Definition setPreferHotkeys (enable : bool) : M unit :=
  cur <- read m_preferHotkeys ;;
  if Bool.eqb cur enable then ret tt
  else assign set_m_preferHotkeys enable ;; emit preferHotkeysChanged.

(** *** The interface object [p_intf]

    What the modelled methods ask of the engine and of the compositor:
    [var_InheritFloat] reads an inherited engine option, and
    [logicalDotsPerInch] is the resolution of the screen of the interface
    main window, [None] when there is no compositor, window or screen.
    The engine declares [var_InheritFloat] with result type [float]; the
    model holds such a value as the [double] it promotes to. *)
Record qt_intf_t : Type := mk_qt_intf {
  var_InheritFloat : string -> double;
  logicalDotsPerInch : option double
}.

Definition VLC_REFERENCE_SCALE_FACTOR : double := Double.ninety_six.

Definition updateIntfScaleFactor (p_intf : qt_intf_t) : M unit :=
  user <- read m_intfUserScaleFactor ;;
  assign set_m_intfScaleFactor user ;;
  match logicalDotsPerInch p_intf with
  | Some dpi =>
      user <- read m_intfUserScaleFactor ;;
      assign set_m_intfScaleFactor
        (Double.div (Double.mul user dpi) VLC_REFERENCE_SCALE_FACTOR)
  | None => ret tt
  end ;;
  emit intfScaleFactorChanged.

(** *** The persisted settings

    [getSettings()] is a [QSettings] store: string keys mapped to variants.
    The model keeps the variants the interface writes (booleans, integers
    and enumerations, doubles); reading a variant at another type follows
    the conversions of [QVariant] between these three. *)
Inductive QVariant : Type :=
| QV_bool (b : bool)
| QV_int (i : Z)
| QV_double (d : double).

Definition QVariant_toBool (v : QVariant) : bool :=
  match v with
  | QV_bool b => b
  | QV_int i => negb (i =? 0)
  | QV_double d => Double.neqb d Double.zero
  end.

Definition QVariant_toInt (v : QVariant) : Z :=
  match v with
  | QV_bool b => if b then 1 else 0
  | QV_int i => i
  | QV_double d => Double.round d
  end.

Definition QVariant_toDouble (v : QVariant) : double :=
  match v with
  | QV_bool b => if b then Double.one else Double.zero
  | QV_int i => Double.of_Z i
  | QV_double d => d
  end.

(** [QSettings::value(key, defaultValue)]. *)
Definition QSettings_value (settings : gmap string QVariant)
    (key : string) (defaultValue : QVariant) : QVariant :=
  default defaultValue (settings !! key).

(** The generic lambda [loadFromSettings] of [loadFromSettingsImpl],
    instantiated at the type [T] of [variable]: [conv] is
    [QVariant::value<T>()], [eqb] is [==] on [T], [member] and [set] read
    and assign [variable], and [signal] is the pointer to the change signal
    (never null in the calls below, hence not optional here). *)
Definition loadFromSettings {T : Type}
    (settings : gmap string QVariant) (callSignals : bool)
    (conv : QVariant -> T) (eqb : T -> T -> bool)
    (member : MainCtx -> T) (set : T -> MainCtx -> MainCtx)
    (name : string) (defaultValue : QVariant) (signal : T -> Signal)
  : M unit :=
  let value := conv (QSettings_value settings name defaultValue) in
  variable <- read member ;;
  if eqb value variable then ret tt
  else
    assign set value ;;
    if callSignals then (variable <- read member ;; emit (signal variable))
    else ret tt.

(** Modelled from the spec: [ColorSchemeModel::setCurrentScheme] is not
    among the sources; it makes the given scheme the current one and
    signals the change. *)
Definition setCurrentScheme (scheme : ColorScheme) : M unit :=
  assign set_m_colorScheme scheme ;; emit (colorSchemeChanged scheme).

Definition loadFromSettingsImpl (p_intf : qt_intf_t)
    (settings : gmap string QVariant) (callSignals : bool) : M unit :=
  loadFromSettings settings callSignals QVariant_toBool Bool.eqb
    b_playlistDocked set_b_playlistDocked
    "MainWindow/pl-dock-status" (QV_bool true) playlistDockedChanged ;;
  loadFromSettings settings callSignals QVariant_toBool Bool.eqb
    playlistVisible set_playlistVisible
    "MainWindow/playlist-visible" (QV_bool false) playlistVisibleChanged ;;
  loadFromSettings settings callSignals QVariant_toDouble Double.eqb
    playlistWidthFactor set_playlistWidthFactor
    "MainWindow/playlist-width-factor" (QV_double Double.four)
    playlistWidthFactorChanged ;;
  loadFromSettings settings callSignals QVariant_toBool Bool.eqb
    m_gridView set_m_gridView
    "MainWindow/grid-view" (QV_bool true) gridViewChanged ;;
  loadFromSettings settings callSignals QVariant_toInt Z.eqb
    m_grouping set_m_grouping
    "MainWindow/grouping" (QV_int GROUPING_NONE) groupingChanged ;;
  loadFromSettings settings callSignals QVariant_toBool Bool.eqb
    m_showRemainingTime set_m_showRemainingTime
    "MainWindow/ShowRemainingTime" (QV_bool false) showRemainingTimeChanged ;;
  loadFromSettings settings callSignals QVariant_toBool Bool.eqb
    m_pinVideoControls set_m_pinVideoControls
    "MainWindow/pin-video-controls" (QV_bool false) pinVideoControlsChanged ;;
  (let colorScheme : ColorScheme :=
     QVariant_toInt
       (QSettings_value settings "MainWindow/color-scheme"
          (QV_int ColorScheme_System)) in
   current <- read m_colorScheme ;;
   if negb (current =? colorScheme) then setCurrentScheme colorScheme
   else ret tt) ;;
  (* user interface scale factor *)
  (let inherited := var_InheritFloat p_intf "qt-interface-scale" in
   let userIntfScaleFactor :=
     if Double.eqb inherited Double.minus_one then
       Double.through_float
         (QVariant_toDouble
            (QSettings_value settings "MainWindow/interface-scale"
               (QV_double Double.one)))
     else inherited in
   current <- read m_intfUserScaleFactor ;;
   if Double.neqb current userIntfScaleFactor then
     assign set_m_intfUserScaleFactor userIntfScaleFactor ;;
     updateIntfScaleFactor p_intf
   else ret tt).

(** The context one [loadFromSettings] call leaves, written without the
    monad. *)
Definition loaded_member {T : Type} (eqb : T -> T -> bool)
    (member : MainCtx -> T) (set : T -> MainCtx -> MainCtx) (value : T)
    (c : MainCtx) : MainCtx :=
  if eqb value (member c) then c else set value c.

(** The value a member holds after such a call: the value read, unless the
    old one compares equal to it and stays. *)
Definition loaded_value {T : Type} (eqb : T -> T -> bool) (value old : T)
  : T :=
  if eqb value old then old else value.

(** The candidate scale factor [loadFromSettingsImpl] computes in its
    local [userIntfScaleFactor]. *)
Definition userIntfScaleFactor (p_intf : qt_intf_t)
    (settings : gmap string QVariant) : double :=
  let inherited := var_InheritFloat p_intf "qt-interface-scale" in
  if Double.eqb inherited Double.minus_one then
    Double.through_float
      (QVariant_toDouble
         (QSettings_value settings "MainWindow/interface-scale"
            (QV_double Double.one)))
  else inherited.

(** *** Drag and drop *)

(** [Qt::DropAction] flags. *)
Definition CopyAction : Z := 1.
Definition MoveAction : Z := 2.
Definition LinkAction : Z := 4.

(** What [dropEventPlay] asks of a [QUrl]. *)
Record QUrl : Type := mkQUrl {
  isValid : bool;
  toString : string;
  toEncoded : string
}.

Record QMimeData : Type := mkQMimeData {
  urls : list QUrl;
  hasUrls : bool;
  hasText : bool;
  text : string
}.

Record QDropEvent : Type := mkQDropEvent {
  possibleActions : Z;
  mimeData : QMimeData
}.

(** [vlc::playlist::Media{ mrl, QString {} }]. *)
Record Media : Type := mkMedia {
  mrl : string;
  title : string
}.

(** The calls [dropEventPlay] makes on the event, on the player controller
    [THEMIM] and on the playlist controller [THEMPL], in program order. *)
Inductive DropCall : Type :=
| setDropAction (action : Z)
| AddAssociatedMedia_SPU_ES (uri : string) (select notify check_ext : bool)
| append (medias : list Media) (b_play : bool)
| accept.

Section DragAndDrop.

(** [toURI] is a helper of the interface (qt.hpp) that is not among the
    sources: it turns a path or locator into a playback URI, and may yield
    the empty string. *)
Variable toURI : string -> string.

(** [QUrl(text).isValid()] for the textual content of a drop. *)
Variable isValidUrlText : string -> bool.

(** Windows builds only: the locator built from the target of a dropped
    symbolic link, when the dropped file exists and is one; [None] on the
    other platforms. *)
Variable symLinkTargetUrl : QUrl -> option QUrl.

(** [THEMIM->hasInput()]. *)
Variable hasInput : bool.

(** The status [THEMIM->AddAssociatedMedia(SPU_ES, uri, true, true, true)]
    returns: [VLC_SUCCESS], which is 0, when the engine attached the track,
    and an error code otherwise. *)
Variable AddAssociatedMedia : string -> Z.

Definition dropped_mrl (url : QUrl) : string :=
  match symLinkTargetUrl url with
  | Some target => toURI (toEncoded target)
  | None => toURI (toEncoded url)
  end.

(** The loop over [mimeData->urls()] that fills [medias]. *)
Fixpoint dropped_medias (l : list QUrl) : list Media :=
  match l with
  | [] => []
  | url :: rest =>
      if isValid url then
        let m := dropped_mrl url in
        if 0 <? Z.of_nat (String.length m)
        then mkMedia m EmptyString :: dropped_medias rest
        else dropped_medias rest
      else dropped_medias rest
  end.

(** Browsers give content as text if you dnd the addressbar: the media for
    the textual content, used when the drop carries no locator list. *)
Definition dropped_text (mime : QMimeData) : list Media :=
  if negb (hasUrls mime) && hasText mime && isValidUrlText (text mime)
  then [mkMedia (toURI (text mime)) EmptyString]
  else [].

(** The tail of [dropEventPlay], from the declaration of [medias] on. *)
Definition enqueue_dropped (event : QDropEvent) (b_play : bool)
  : list DropCall :=
  let mime := mimeData event in
  let medias := dropped_medias (urls mime) ++ dropped_text mime in
  match medias with
  | [] => [accept]
  | _ :: _ => [append medias b_play; accept]
  end.

Definition dropEventPlay (event : QDropEvent) (b_play : bool)
  : list DropCall :=
  if Z.land (possibleActions event)
       (Z.lor (Z.lor CopyAction MoveAction) LinkAction) =? 0
  then []
  else
    setDropAction CopyAction ::
    match urls (mimeData event) with
    | [url] =>
        if hasInput then
          let status := AddAssociatedMedia (toString url) in
          AddAssociatedMedia_SPU_ES (toString url) true true true ::
          (if status =? 0 then [accept]
           else enqueue_dropped event b_play)
        else enqueue_dropped event b_play
    | _ => enqueue_dropped event b_play
    end.

End DragAndDrop.

(** Modelled from the spec: [PlaylistControllerModel::append] is not among
    the sources; it adds the given items at the end of the playback queue.
    [playlist_after] is the queue once the [append] calls of a drop were
    served. *)
Fixpoint playlist_after (calls : list DropCall) (queue : list Media)
  : list Media :=
  match calls with
  | [] => queue
  | append medias _ :: rest => playlist_after rest (queue ++ medias)
  | _ :: rest => playlist_after rest queue
  end.

(** Whether, and with which locator, a drop asked the player to attach an
    auxiliary track before anything else than fixing the drop action. *)
Definition first_request (calls : list DropCall) : option DropCall :=
  match calls with
  | setDropAction _ :: c :: _ => Some c
  | _ => None
  end.

End Qt.


(** ** The macOS video window provider (window_macosx.m) *)
Module MacOSX.

Inductive vlc_status : Type := VLC_SUCCESS | VLC_EGENERIC | VLC_ENOMEM.

(** *** AppKit values *)

(** [NSWindowStyleMask] bits. *)
Definition NSWindowStyleMaskBorderless : Z := 0.
Definition NSWindowStyleMaskTitled : Z := Z.shiftl 1 0.
Definition NSWindowStyleMaskClosable : Z := Z.shiftl 1 1.
Definition NSWindowStyleMaskMiniaturizable : Z := Z.shiftl 1 2.
Definition NSWindowStyleMaskResizable : Z := Z.shiftl 1 3.
Definition NSFullScreenWindowMask : Z := Z.shiftl 1 14.

(** Style mask for a decorated window *)
Definition decoratedWindowStyleMask : Z :=
  Z.lor (Z.lor (Z.lor NSWindowStyleMaskTitled NSWindowStyleMaskClosable)
           NSWindowStyleMaskMiniaturizable)
    NSWindowStyleMaskResizable.

(** Style mask for a non-decorated window *)
Definition undecoratedWindowStyleMask : Z :=
  Z.lor NSWindowStyleMaskBorderless NSWindowStyleMaskResizable.

(** An [NSSize].  Its [CGFloat] components are held as rationals: the sizes
    the module handles are pixel counts below 2^32 and their quotients by
    the backing scale factor, and wherever such a quotient is an integer the
    floating-point operations involved are exact. *)
Record NSSize : Type := NSMakeSize { width : Q; height : Q }.

Definition NSZeroSize : NSSize := NSMakeSize 0 0.

(** [NSEqualSizes]: the two sizes have the same width and the same
    height. *)
Definition NSEqualSizes (a b : NSSize) : Prop :=
  (width a == width b)%Q /\ (height a == height b)%Q.

(** The window with its content view.  The content view fills the content
    area, so its bounds have the content size.  [backingScaleFactor] is the
    number of pixels per point of the screen the window is on (1, or 2 on a
    high-resolution display).  [toggleFullScreen_calls] counts the
    [toggleFullScreen:] requests made to the window. *)
Record NSWindow : Type := mkNSWindow {
  styleMask : Z;
  contentSize : NSSize;
  backingScaleFactor : positive;
  isVisible : bool;
  isKeyWindow : bool;
  title : string;
  toggleFullScreen_calls : nat
}.

Definition set_styleMask (v : Z) (w : NSWindow) : NSWindow :=
  mkNSWindow v (contentSize w) (backingScaleFactor w) (isVisible w)
    (isKeyWindow w) (title w) (toggleFullScreen_calls w).
Definition set_contentSize (v : NSSize) (w : NSWindow) : NSWindow :=
  mkNSWindow (styleMask w) v (backingScaleFactor w) (isVisible w)
    (isKeyWindow w) (title w) (toggleFullScreen_calls w).
Definition set_backingScaleFactor (v : positive) (w : NSWindow) : NSWindow :=
  mkNSWindow (styleMask w) (contentSize w) v (isVisible w) (isKeyWindow w)
    (title w) (toggleFullScreen_calls w).
Definition set_isVisible (v : bool) (w : NSWindow) : NSWindow :=
  mkNSWindow (styleMask w) (contentSize w) (backingScaleFactor w) v
    (isKeyWindow w) (title w) (toggleFullScreen_calls w).
Definition set_isKeyWindow (v : bool) (w : NSWindow) : NSWindow :=
  mkNSWindow (styleMask w) (contentSize w) (backingScaleFactor w)
    (isVisible w) v (title w) (toggleFullScreen_calls w).
Definition set_title (v : string) (w : NSWindow) : NSWindow :=
  mkNSWindow (styleMask w) (contentSize w) (backingScaleFactor w)
    (isVisible w) (isKeyWindow w) v (toggleFullScreen_calls w).
Definition set_toggleFullScreen_calls (v : nat) (w : NSWindow) : NSWindow :=
  mkNSWindow (styleMask w) (contentSize w) (backingScaleFactor w)
    (isVisible w) (isKeyWindow w) (title w) v.

(** [convertRectFromBacking:] and [convertRectToBacking:], on the size of
    the rectangle: a point is [backingScaleFactor] pixels. *)
Definition convertSizeFromBacking (w : NSWindow) (backing : NSSize) : NSSize :=
  let s := inject_Z (Zpos (backingScaleFactor w)) in
  NSMakeSize (width backing / s)%Q (height backing / s)%Q.

Definition convertSizeToBacking (w : NSWindow) (points : NSSize) : NSSize :=
  let s := inject_Z (Zpos (backingScaleFactor w)) in
  NSMakeSize (width points * s)%Q (height points * s)%Q.

(** The cast [(unsigned int)x] of a [CGFloat]: the fractional part is
    discarded and the result is an [unsigned int].  C defines the cast
    when the integral part fits [unsigned int]; for the other values the
    model keeps the low 32 bits of the integral part, which is what the
    conversion through a 64-bit integer leaves. *)
Definition unsigned_of_CGFloat (x : Q) : Z :=
  Z.quot (Qnum x) (Zpos (Qden x)) mod 2 ^ 32.

(** *** The engine side *)

(** [vout_window_cfg_t], as far as [showWindowWithConfig:] reads it. *)
Record vout_window_cfg_t : Type := mk_cfg {
  cfg_width : Z;
  cfg_height : Z;
  is_decorated : bool
}.

(** What the engine receives through the [vout_window_Report...] calls. *)
Inductive Report : Type :=
| vout_window_ReportFullscreen
| vout_window_ReportWindowed
| vout_window_ReportSize (w h : Z)
| vout_window_ReportClose.

Inductive vout_window_type : Type :=
| VOUT_WINDOW_TYPE_DUMMY
| VOUT_WINDOW_TYPE_NSOBJECT.

Inductive Message : Type :=
| msg_Info_using_module
| msg_Err_no_NSApplication.

(** *** Blocks *)

(** The blocks the delegate puts on its serial [eventQueue]. *)
Inductive EventBlock : Type :=
| block_reportFullscreen
| block_reportWindowed
| block_reportSizeChanged (newSize : NSSize)
| block_reportClose.

(** The blocks the module callbacks put on the main queue.  Each holds a
    weak reference to the window controller. *)
Inductive MainBlock : Type :=
| block_showWindowWithConfig (cfg : vout_window_cfg_t)
| block_close
| block_resize (w h : Z)
| block_setWindowDecorated (decorated : bool)
| block_setWindowFullscreen (fullscreen : bool)
| block_setTitle (t : string).

(** *** The state of the module and of its objects

    - [wnd_ops], [wnd_sys], [wnd_type]: the fields of the engine's
      [vout_window_t] the module writes.
    - [sys_windowController], [sys_delegate]: whether the two strong
      references of [vout_window_sys_t] are set.
    - [delegate]: the [VLCVideoWindowModuleDelegate] object with the blocks
      pending on its [eventQueue], [None] when there is none (not created
      yet, or its deallocation has begun: every weak reference to it then
      reads nil).  While the object lives its [vlc_vout_window] is the
      engine window; [dealloc] is the only code that clears it.
    - [window]: the window of the controller with its content view.
    - [mainQueue]: the blocks pending on the main dispatch queue.
    - [reported]: what the engine received so far, oldest first.
    - [messages]: what was logged.
    - [eventQueue_deadlock]: whether the thread serving the event queue is
      stuck in a [dispatch_sync] onto the event queue itself, which never
      returns. *)
Record State : Type := mkState {
  wnd_ops : bool;
  wnd_sys : bool;
  wnd_type : vout_window_type;
  sys_windowController : bool;
  sys_delegate : bool;
  delegate : option (list EventBlock);
  window : option NSWindow;
  mainQueue : list MainBlock;
  reported : list Report;
  messages : list Message;
  eventQueue_deadlock : bool
}.

Definition set_wnd_ops (v : bool) (st : State) : State :=
  mkState v (wnd_sys st) (wnd_type st) (sys_windowController st)
    (sys_delegate st) (delegate st) (window st) (mainQueue st)
    (reported st) (messages st) (eventQueue_deadlock st).
Definition set_wnd_sys (v : bool) (st : State) : State :=
  mkState (wnd_ops st) v (wnd_type st) (sys_windowController st)
    (sys_delegate st) (delegate st) (window st) (mainQueue st)
    (reported st) (messages st) (eventQueue_deadlock st).
Definition set_wnd_type (v : vout_window_type) (st : State) : State :=
  mkState (wnd_ops st) (wnd_sys st) v (sys_windowController st)
    (sys_delegate st) (delegate st) (window st) (mainQueue st)
    (reported st) (messages st) (eventQueue_deadlock st).
Definition set_sys_windowController (v : bool) (st : State) : State :=
  mkState (wnd_ops st) (wnd_sys st) (wnd_type st) v (sys_delegate st)
    (delegate st) (window st) (mainQueue st) (reported st) (messages st)
    (eventQueue_deadlock st).
Definition set_sys_delegate (v : bool) (st : State) : State :=
  mkState (wnd_ops st) (wnd_sys st) (wnd_type st) (sys_windowController st)
    v (delegate st) (window st) (mainQueue st) (reported st) (messages st)
    (eventQueue_deadlock st).
Definition set_delegate (v : option (list EventBlock)) (st : State) : State :=
  mkState (wnd_ops st) (wnd_sys st) (wnd_type st) (sys_windowController st)
    (sys_delegate st) v (window st) (mainQueue st) (reported st)
    (messages st) (eventQueue_deadlock st).
Definition set_window (v : option NSWindow) (st : State) : State :=
  mkState (wnd_ops st) (wnd_sys st) (wnd_type st) (sys_windowController st)
    (sys_delegate st) (delegate st) v (mainQueue st) (reported st)
    (messages st) (eventQueue_deadlock st).
Definition set_mainQueue (v : list MainBlock) (st : State) : State :=
  mkState (wnd_ops st) (wnd_sys st) (wnd_type st) (sys_windowController st)
    (sys_delegate st) (delegate st) (window st) v (reported st)
    (messages st) (eventQueue_deadlock st).
Definition set_reported (v : list Report) (st : State) : State :=
  mkState (wnd_ops st) (wnd_sys st) (wnd_type st) (sys_windowController st)
    (sys_delegate st) (delegate st) (window st) (mainQueue st) v
    (messages st) (eventQueue_deadlock st).
Definition set_messages (v : list Message) (st : State) : State :=
  mkState (wnd_ops st) (wnd_sys st) (wnd_type st) (sys_windowController st)
    (sys_delegate st) (delegate st) (window st) (mainQueue st)
    (reported st) v (eventQueue_deadlock st).
Definition set_eventQueue_deadlock (v : bool) (st : State) : State :=
  mkState (wnd_ops st) (wnd_sys st) (wnd_type st) (sys_windowController st)
    (sys_delegate st) (delegate st) (window st) (mainQueue st)
    (reported st) (messages st) v.

Definition initial_state : State :=
  mkState false false VOUT_WINDOW_TYPE_DUMMY false false None None [] [] []
    false.

(** *** VLCVideoWindowModuleDelegate

    The methods act on the blocks pending on the delegate's [eventQueue]. *)

(** [dispatch_async(eventQueue, block)] *)
Definition enqueueEventBlock (block : EventBlock)
    (pending : list EventBlock) : list EventBlock :=
  pending ++ [block].

Definition reportFullscreen : list EventBlock -> list EventBlock :=
  enqueueEventBlock block_reportFullscreen.

Definition reportWindowed : list EventBlock -> list EventBlock :=
  enqueueEventBlock block_reportWindowed.

Definition reportSizeChanged (newSize : NSSize)
  : list EventBlock -> list EventBlock :=
  enqueueEventBlock (block_reportSizeChanged newSize).

Definition reportClose : list EventBlock -> list EventBlock :=
  enqueueEventBlock block_reportClose.

(** A message sent to the delegate through a reference to it, such as the
    weak [_moduleDelegate] of the window controller and of the content
    view: once the delegate is deallocated the reference is nil and the
    message does nothing. *)
Definition to_moduleDelegate
    (method : list EventBlock -> list EventBlock) (st : State) : State :=
  match delegate st with
  | Some pending => set_delegate (Some (method pending)) st
  | None => st
  end.

(** What a block of the event queue hands to the engine when it runs. *)
Definition run_event_block (block : EventBlock) : Report :=
  match block with
  | block_reportFullscreen => vout_window_ReportFullscreen
  | block_reportWindowed => vout_window_ReportWindowed
  | block_reportSizeChanged newSize =>
      vout_window_ReportSize (unsigned_of_CGFloat (width newSize))
        (unsigned_of_CGFloat (height newSize))
  | block_reportClose => vout_window_ReportClose
  end.

(** [dealloc], when the last reference is dropped by a thread that is not
    serving the event queue: [dispatch_sync] on the serial event queue runs
    after the blocks already pending on it, then the engine window pointer
    is cleared and the object is gone. *)
Definition dealloc (st : State) : State :=
  match delegate st with
  | Some pending =>
      set_delegate None
        (set_reported (reported st ++ map run_event_block pending) st)
  | None => st
  end.

(** [dealloc], when the last reference is dropped by the event queue
    itself, on the release of the block it has just run.  The
    [dispatch_sync(eventQueue, ...)] of [dealloc] then waits for the queue
    to finish the very work item it is called from: it never returns, and
    the engine window pointer is never cleared.  Deallocation has begun, so
    every weak reference to the delegate reads nil from then on. *)
Definition dealloc_on_eventQueue (st : State) : State :=
  match delegate st with
  | Some _ => set_eventQueue_deadlock true (set_delegate None st)
  | None => st
  end.

(** One turn of the event queue: its oldest block runs and is released.
    The report blocks read the instance variable [vlc_vout_window], so each
    retains the delegate until it has run; when the module has dropped its
    own reference, the release of the last block starts [dealloc] on the
    event queue. *)
Definition eventQueue_step (st : State) : State :=
  match delegate st with
  | Some (block :: rest) =>
      let st := set_reported (reported st ++ [run_event_block block]) st in
      let st := set_delegate (Some rest) st in
      match rest with
      | [] => if sys_delegate st then st else dealloc_on_eventQueue st
      | _ :: _ => st
      end
  | _ => st
  end.

(** [n] turns of the event queue. *)
Fixpoint eventQueue_run (n : nat) (st : State) : State :=
  match n with
  | O => st
  | S k => eventQueue_run k (eventQueue_step st)
  end.

(** *** VLCVideoStandaloneWindowController and VLCVideoWindowContentView *)

Definition on_window (f : NSWindow -> NSWindow) (st : State) : State :=
  match window st with
  | Some w => set_window (Some (f w)) st
  | None => st
  end.

Definition setWindowDecorated (decorated : bool) (st : State) : State :=
  let mask :=
    if decorated then decoratedWindowStyleMask
    else undecoratedWindowStyleMask in
  on_window (set_styleMask mask) st.

(** Applies the given config to the window and shows it. *)
Definition showWindowWithConfig (config : vout_window_cfg_t) (st : State)
  : State :=
  (* Convert from backing to window coordinates *)
  let backing :=
    NSMakeSize (inject_Z (cfg_width config)) (inject_Z (cfg_height config)) in
  let st :=
    on_window (fun w => set_contentSize (convertSizeFromBacking w backing) w)
      st in
  (* Set decoration *)
  let st := setWindowDecorated (is_decorated config) st in
  (* showWindow: and makeKeyAndOrderFront:, always last *)
  on_window (fun w => set_isKeyWindow true (set_isVisible true w)) st.

Definition windowShouldClose (st : State) : bool * State :=
  (true, to_moduleDelegate reportClose st).

Definition isWindowFullscreen (st : State) : bool :=
  match window st with
  | Some w =>
      Z.land (styleMask w) NSFullScreenWindowMask =? NSFullScreenWindowMask
  | None => false
  end.

(** [toggleFullScreen:] starts a transition that the window server
    completes later; the window then receives [windowDidEnterFullScreen:]
    or [windowDidExitFullScreen:]. *)
Definition toggleFullScreen (st : State) : State :=
  on_window
    (fun w => set_toggleFullScreen_calls (S (toggleFullScreen_calls w)) w) st.

Definition setWindowFullscreen (fullscreen : bool) (st : State) : State :=
  if Bool.eqb fullscreen (isWindowFullscreen st) then
    (* Nothing to do, just report the state to core *)
    if fullscreen then to_moduleDelegate reportFullscreen st
    else to_moduleDelegate reportWindowed st
  else toggleFullScreen st.

Definition windowDidEnterFullScreen (st : State) : State :=
  to_moduleDelegate reportFullscreen st.

Definition windowDidExitFullScreen (st : State) : State :=
  to_moduleDelegate reportWindowed st.

(** Report the view size in the backing size dimensions to VLC core *)
Definition reportBackingSize (st : State) : State :=
  match window st with
  | Some w =>
      let bounds := convertSizeToBacking w (contentSize w) in
      to_moduleDelegate (reportSizeChanged bounds) st
  | None => st
  end.

(** Handle view size changes *)
Definition resizeSubviewsWithOldSize (st : State) : State :=
  reportBackingSize st.

(** Handle view backing property changes *)
Definition viewDidChangeBackingProperties (st : State) : State :=
  reportBackingSize st.

(** *** The main dispatch queue *)

(** A message sent through the weak reference [weakWc] a block holds: the
    module's [sys->windowController] is the only strong reference to the
    controller, so the weak one is nil once that is cleared. *)
Definition to_weakWc (method : State -> State) (st : State) : State :=
  if sys_windowController st then method st else st.

Definition run_main_block (block : MainBlock) (st : State) : State :=
  match block with
  | block_showWindowWithConfig cfg => to_weakWc (showWindowWithConfig cfg) st
  | block_close => to_weakWc (on_window (set_isVisible false)) st
  | block_resize w h =>
      to_weakWc
        (on_window (fun win =>
           (* Convert from backing to window coordinates *)
           let backing := NSMakeSize (inject_Z w) (inject_Z h) in
           set_contentSize (convertSizeFromBacking win backing) win))
        st
  | block_setWindowDecorated decorated =>
      to_weakWc (setWindowDecorated decorated) st
  | block_setWindowFullscreen fullscreen =>
      to_weakWc (setWindowFullscreen fullscreen) st
  | block_setTitle t => to_weakWc (on_window (set_title t)) st
  end.

Definition dispatch_async_main (block : MainBlock) (st : State) : State :=
  set_mainQueue (mainQueue st ++ [block]) st.

(** The main thread serves the blocks pending on the main queue, oldest
    first. *)
Definition drain_main (st : State) : State :=
  fold_left (fun st block => run_main_block block st) (mainQueue st)
    (set_mainQueue [] st).

(** [dispatch_sync] on the main queue: the caller waits until the block,
    queued behind the pending ones, has run. *)
Definition dispatch_sync_main (block : MainBlock) (st : State) : State :=
  run_main_block block (drain_main st).

(** *** VLC module *)

(** Enable Window *)
Definition WindowEnable (cfg : vout_window_cfg_t) (st : State)
  : vlc_status * State :=
  (VLC_SUCCESS, dispatch_sync_main (block_showWindowWithConfig cfg) st).

(** Request to close the window *)
Definition WindowDisable (st : State) : State :=
  dispatch_async_main block_close st.

(** Request to resize the window *)
Definition WindowResize (w h : Z) (st : State) : State :=
  dispatch_async_main (block_resize w h) st.

(** Request to enable/disable Window decorations *)
Definition SetDecoration (decorated : bool) (st : State) : State :=
  dispatch_async_main (block_setWindowDecorated decorated) st.

(** Request to enter fullscreen *)
Definition WindowSetFullscreen (st : State) : State :=
  dispatch_async_main (block_setWindowFullscreen true) st.

(** Request to exit fullscreen *)
Definition WindowUnsetFullscreen (st : State) : State :=
  dispatch_async_main (block_setWindowFullscreen false) st.

Definition WindowSetTitle (t : string) (st : State) : State :=
  dispatch_async_main (block_setTitle t) st.

(** Module destruction: both references of [sys] are set to nil.  The
    delegate is deallocated at once, on the thread of the caller, unless
    blocks still pending on its event queue retain it (see
    [eventQueue_step]). *)
Definition Close (st : State) : State :=
  let st := set_sys_windowController false st in
  let st := set_sys_delegate false st in
  match delegate st with
  | Some [] => dealloc st
  | _ => st
  end.

(** What [Open] finds on the host: whether there is an [NSApplication],
    whether each allocation succeeds, the scale factor of the screen the
    new window lands on, the content size of the frame the user defaults
    hold under the autosave name [VLCVideoStandaloneWindow] (when a window
    was saved under that name before), and the [VOUT_TITLE] the build
    defines. *)
Record Host : Type := mkHost {
  NSApp : bool;
  vlc_obj_calloc_ok : bool;
  delegate_alloc_ok : bool;
  controller_init_ok : bool;
  view_alloc_ok : bool;
  screen_backingScaleFactor : positive;
  autosaved_contentSize : option NSSize;
  VOUT_TITLE : string
}.

(** [setWindowFrameAutosaveName:]: a frame saved under the name is given
    back to the window. *)
Definition setWindowFrameAutosaveName (saved : option NSSize) (w : NSWindow)
  : NSWindow :=
  match saved with
  | Some size => set_contentSize size w
  | None => w
  end.

(** [initWithModuleDelegate:], run on the main thread.  The result tells
    whether a controller came out of it.  The calls that set what
    [NSWindow] here does not hold leave the window as it is: the live
    resize, release-on-close and collection behaviours, the content view
    and the delegate of the window, and its place on the screen, which
    [center] gives it. *)
Definition initWithModuleDelegate (host : Host) (st : State) : bool * State :=
  if controller_init_ok host then
    (* initWithContentRect:NSZeroRect styleMask:decoratedWindowStyleMask *)
    let w :=
      mkNSWindow decoratedWindowStyleMask NSZeroSize
        (screen_backingScaleFactor host) false false EmptyString 0%nat in
    (* Set the initial vout title *)
    let w := set_title (VOUT_TITLE host +:+ " (VLC Video Output)") w in
    if view_alloc_ok host then
      (* Position the window in the center, then restore the saved
         frame *)
      let w := setWindowFrameAutosaveName (autosaved_contentSize host) w in
      let st := set_window (Some w) st in
      (* setViewObject: *)
      let st := set_wnd_type VOUT_WINDOW_TYPE_NSOBJECT st in
      (true, st)
    else (false, st)
  else (false, st).

(** Module initialization *)
Definition Open (host : Host) (st : State) : vlc_status * State :=
  let st := set_messages (messages st ++ [msg_Info_using_module]) st in
  if negb (NSApp host) then
    (VLC_EGENERIC,
     set_messages (messages st ++ [msg_Err_no_NSApplication]) st)
  else if negb (vlc_obj_calloc_ok host) then (VLC_ENOMEM, st)
  else if negb (delegate_alloc_ok host) then (VLC_ENOMEM, st)
  else
    let st := set_delegate (Some []) st in
    let st := set_sys_delegate true st in
    let '(created, st) := initWithModuleDelegate host (drain_main st) in
    if negb created then (VLC_ENOMEM, st)
    else
      let st := set_sys_windowController true st in
      let st := set_wnd_ops true st in
      let st := set_wnd_sys true st in
      (VLC_SUCCESS, st).

(** *** After teardown *)

(** The module released its two references and the delegate is gone:
    its deallocation has begun, and every weak reference to it reads
    nil. *)
Definition torn_down (st : State) : Prop :=
  sys_windowController st = false /\ sys_delegate st = false /\
  delegate st = None.

(** What can still happen then: a report message sent through a weak
    reference to the delegate, a callback of the window or of the content
    view (the window may outlive the module), or a turn of the event
    queue. *)
Inductive LateCall : Type :=
| late_reportFullscreen
| late_reportWindowed
| late_reportSizeChanged (newSize : NSSize)
| late_reportClose
| late_windowShouldClose
| late_windowDidEnterFullScreen
| late_windowDidExitFullScreen
| late_resizeSubviewsWithOldSize
| late_viewDidChangeBackingProperties
| late_eventQueue_turn.

Definition late_call (call : LateCall) (st : State) : State :=
  match call with
  | late_reportFullscreen => to_moduleDelegate reportFullscreen st
  | late_reportWindowed => to_moduleDelegate reportWindowed st
  | late_reportSizeChanged newSize =>
      to_moduleDelegate (reportSizeChanged newSize) st
  | late_reportClose => to_moduleDelegate reportClose st
  | late_windowShouldClose => snd (windowShouldClose st)
  | late_windowDidEnterFullScreen => windowDidEnterFullScreen st
  | late_windowDidExitFullScreen => windowDidExitFullScreen st
  | late_resizeSubviewsWithOldSize => resizeSubviewsWithOldSize st
  | late_viewDidChangeBackingProperties => viewDidChangeBackingProperties st
  | late_eventQueue_turn => eventQueue_step st
  end.

End MacOSX.

(** ** More of the main context *)
Module QtMore.
Import Qt.
Local Open Scope method_scope.

(** *** Saving the state

    The settings [~MainCtx] writes under "Save states": the group
    [MainWindow], from [beginGroup] to [endGroup], in program order.  (The
    destructor also stores or removes the string [filedialog-path], outside
    this group, and releases what the context owns.) *)
Definition save_states (c : MainCtx) (settings : gmap string QVariant)
  : gmap string QVariant :=
  fold_left (fun s kv => <[ fst kv := snd kv ]> s)
    [ ("MainWindow/pl-dock-status", QV_bool (b_playlistDocked c));
      ("MainWindow/ShowRemainingTime", QV_bool (m_showRemainingTime c));
      ("MainWindow/interface-scale", QV_double (m_intfUserScaleFactor c));
      ("MainWindow/pin-video-controls", QV_bool (m_pinVideoControls c));
      ("MainWindow/playlist-visible", QV_bool (playlistVisible c));
      ("MainWindow/playlist-width-factor",
       QV_double (playlistWidthFactor c));
      ("MainWindow/grid-view", QV_bool (m_gridView c));
      ("MainWindow/grouping", QV_int (m_grouping c));
      ("MainWindow/color-scheme", QV_int (m_colorScheme c)) ]
    settings.

(** The value [updateIntfScaleFactor] computes for [m_intfScaleFactor]. *)
Definition intfScaleFactor_of (p_intf : qt_intf_t) (user : double) : double :=
  match logicalDotsPerInch p_intf with
  | Some dpi => Double.div (Double.mul user dpi) VLC_REFERENCE_SCALE_FACTOR
  | None => user
  end.

(** The signal one [loadFromSettings] call emits. *)
Definition loaded_signal {T : Type} (callSignals : bool)
    (eqb : T -> T -> bool) (value old : T) (signal : T -> Signal)
  : list Signal :=
  if eqb value old then [] else if callSignals then [signal value] else [].

(** Whether a signal is the change signal of one of the members
    [loadFromSettings] loads. *)
Definition is_member_signal (s : Signal) : bool :=
  match s with
  | playlistDockedChanged _ | playlistVisibleChanged _
  | playlistWidthFactorChanged _ | gridViewChanged _ | groupingChanged _
  | showRemainingTimeChanged _ | pinVideoControlsChanged _ => true
  | _ => false
  end.

(** The context before the last step of [loadFromSettingsImpl]. *)
Definition before_scale_step (settings : gmap string QVariant)
    (c : MainCtx) : MainCtx :=
  let value key dflt := QSettings_value settings key dflt in
  loaded_member Z.eqb m_colorScheme set_m_colorScheme
    (QVariant_toInt
       (value "MainWindow/color-scheme" (QV_int ColorScheme_System)))
  (loaded_member Bool.eqb m_pinVideoControls set_m_pinVideoControls
    (QVariant_toBool (value "MainWindow/pin-video-controls" (QV_bool false)))
  (loaded_member Bool.eqb m_showRemainingTime set_m_showRemainingTime
    (QVariant_toBool (value "MainWindow/ShowRemainingTime" (QV_bool false)))
  (loaded_member Z.eqb m_grouping set_m_grouping
    (QVariant_toInt (value "MainWindow/grouping" (QV_int GROUPING_NONE)))
  (loaded_member Bool.eqb m_gridView set_m_gridView
    (QVariant_toBool (value "MainWindow/grid-view" (QV_bool true)))
  (loaded_member Double.eqb playlistWidthFactor set_playlistWidthFactor
    (QVariant_toDouble
       (value "MainWindow/playlist-width-factor" (QV_double Double.four)))
  (loaded_member Bool.eqb playlistVisible set_playlistVisible
    (QVariant_toBool (value "MainWindow/playlist-visible" (QV_bool false)))
  (loaded_member Bool.eqb b_playlistDocked set_b_playlistDocked
    (QVariant_toBool (value "MainWindow/pl-dock-status" (QV_bool true)))
    c))))))).

(** The context [loadFromSettingsImpl] leaves, member by member: a
    loaded member takes the value read for it unless the old value compares
    equal to it; [m_intfScaleFactor] is recomputed when the user scale
    factor changes; the other members stay. *)
Definition loaded_context (p_intf : qt_intf_t)
    (settings : gmap string QVariant) (c : MainCtx) : MainCtx :=
  let value key dflt := QSettings_value settings key dflt in
  let user := userIntfScaleFactor p_intf settings in
  mkMainCtx
    (loaded_value Bool.eqb
       (QVariant_toBool (value "MainWindow/pl-dock-status" (QV_bool true)))
       (b_playlistDocked c))
    (loaded_value Bool.eqb
       (QVariant_toBool
          (value "MainWindow/playlist-visible" (QV_bool false)))
       (playlistVisible c))
    (loaded_value Double.eqb
       (QVariant_toDouble
          (value "MainWindow/playlist-width-factor"
             (QV_double Double.four)))
       (playlistWidthFactor c))
    (loaded_value Bool.eqb
       (QVariant_toBool
          (value "MainWindow/ShowRemainingTime" (QV_bool false)))
       (m_showRemainingTime c))
    (loaded_value Bool.eqb
       (QVariant_toBool (value "MainWindow/grid-view" (QV_bool true)))
       (m_gridView c))
    (loaded_value Z.eqb
       (QVariant_toInt (value "MainWindow/grouping" (QV_int GROUPING_NONE)))
       (m_grouping c))
    (b_interfaceOnTop c)
    (loaded_value Bool.eqb
       (QVariant_toBool
          (value "MainWindow/pin-video-controls" (QV_bool false)))
       (m_pinVideoControls c))
    (m_hasAcrylicSurface c) (m_acrylicActive c) (m_preferHotkeys c)
    (loaded_value Z.eqb
       (QVariant_toInt
          (value "MainWindow/color-scheme" (QV_int ColorScheme_System)))
       (m_colorScheme c))
    (loaded_value Double.eqb user (m_intfUserScaleFactor c))
    (if Double.neqb (m_intfUserScaleFactor c) user
     then intfScaleFactor_of p_intf user else m_intfScaleFactor c).

(** The signals [loadFromSettingsImpl] emits, in order. *)
Definition loaded_signals (p_intf : qt_intf_t)
    (settings : gmap string QVariant) (callSignals : bool) (c : MainCtx)
  : list Signal :=
  let value key dflt := QSettings_value settings key dflt in
  loaded_signal callSignals Bool.eqb
    (QVariant_toBool (value "MainWindow/pl-dock-status" (QV_bool true)))
    (b_playlistDocked c) playlistDockedChanged
  ++ loaded_signal callSignals Bool.eqb
       (QVariant_toBool
          (value "MainWindow/playlist-visible" (QV_bool false)))
       (playlistVisible c) playlistVisibleChanged
  ++ loaded_signal callSignals Double.eqb
       (QVariant_toDouble
          (value "MainWindow/playlist-width-factor"
             (QV_double Double.four)))
       (playlistWidthFactor c) playlistWidthFactorChanged
  ++ loaded_signal callSignals Bool.eqb
       (QVariant_toBool (value "MainWindow/grid-view" (QV_bool true)))
       (m_gridView c) gridViewChanged
  ++ loaded_signal callSignals Z.eqb
       (QVariant_toInt (value "MainWindow/grouping" (QV_int GROUPING_NONE)))
       (m_grouping c) groupingChanged
  ++ loaded_signal callSignals Bool.eqb
       (QVariant_toBool
          (value "MainWindow/ShowRemainingTime" (QV_bool false)))
       (m_showRemainingTime c) showRemainingTimeChanged
  ++ loaded_signal callSignals Bool.eqb
       (QVariant_toBool
          (value "MainWindow/pin-video-controls" (QV_bool false)))
       (m_pinVideoControls c) pinVideoControlsChanged
  ++ (let scheme :=
        QVariant_toInt
          (value "MainWindow/color-scheme" (QV_int ColorScheme_System)) in
      if m_colorScheme c =? scheme then [] else [colorSchemeChanged scheme])
  ++ (if Double.neqb (m_intfUserScaleFactor c)
           (userIntfScaleFactor p_intf settings)
      then [intfScaleFactorChanged] else []).

(** Two [double] values that are the same value: equal, or zeros of either
    sign (which [==] does not tell apart). *)
Definition same_double (x y : double) : Prop :=
  x = y \/ exists s s', x = S754_zero s /\ y = S754_zero s'.

(** *** The user scale factor *)

(** [qMin], [qMax] and [qBound] of QtGlobal, at type [double]. *)
Definition qMin (a b : double) : double := if Double.ltb a b then a else b.
Definition qMax (a b : double) : double := if Double.ltb a b then b else a.
Definition qBound (min val max : double) : double := qMax min (qMin max val).

(** The literal [0.1]. *)
Definition one_tenth : double :=
  Eval vm_compute in Double.div (Double.of_Z 1) (Double.of_Z 10).

Definition add (x y : double) : double :=
  SFadd Double.prec Double.emax x y.
Definition sub (x y : double) : double :=
  SFsub Double.prec Double.emax x y.

Section UserScaleFactor.

(** [getMinIntfUserScaleFactor()] and [getMaxIntfUserScaleFactor()] are
    declared in mainctx.hpp, which is not among the sources. *)
Variable getMinIntfUserScaleFactor : double.
Variable getMaxIntfUserScaleFactor : double.

Definition setIntfUserScaleFactor (p_intf : qt_intf_t) (newValue : double)
  : M unit :=
  assign set_m_intfUserScaleFactor
    (qBound getMinIntfUserScaleFactor newValue getMaxIntfUserScaleFactor) ;;
  updateIntfScaleFactor p_intf.

Definition incrementIntfUserScaleFactor (p_intf : qt_intf_t)
    (increment : bool) : M unit :=
  current <- read m_intfUserScaleFactor ;;
  if increment then setIntfUserScaleFactor p_intf (add current one_tenth)
  else setIntfUserScaleFactor p_intf (sub current one_tenth).

End UserScaleFactor.

(** *** Preferences inherited from the engine *)

(** The members [loadPrefs] loads besides [b_interfaceOnTop]. *)
Record PrefMembers : Type := mkPrefMembers {
  b_minimalView : bool;
  i_notificationSetting : Z;
  m_hasToolbarMenu : bool;
  m_windowTitlebar : bool;
  m_smoothScroll : bool
}.

(** The engine options [loadVLCOption] reads: [var_InheritBool], and
    [var_InheritInteger] whose 64-bit result [loadVLCOption<int>] returns
    as an [int]. *)
Record vlc_options : Type := mk_vlc_options {
  var_InheritBool : string -> bool;
  var_InheritInteger : string -> Z
}.

Definition int_of_int64 (z : Z) : Z := (z + 2 ^ 31) mod 2 ^ 32 - 2 ^ 31.

Definition loadVLCOption_int (obj : vlc_options) (name : string) : Z :=
  int_of_int64 (var_InheritInteger obj name).

Definition loadVLCOption_bool (obj : vlc_options) (name : string) : bool :=
  var_InheritBool obj name.

(** The signals [loadPrefs] can emit. *)
Inductive PrefSignal : Type :=
| sig_interfaceAlwaysOnTopChanged (on_top : bool)
| hasToolbarMenuChanged
| useClientSideDecorationChanged
| smoothScrollChanged.

(** The generic lambda [loadFromVLCOption] of [loadPrefs] on a state [S]:
    [value] is what [loadVLCOption] returned, [signal] is the function to
    call on a change, [None] for [nullptr]. *)
Definition loadFromVLCOption {S T : Type} (callSignals : bool)
    (eqb : T -> T -> bool) (member : S -> T) (set : T -> S -> S)
    (value : T) (signal : option (S -> PrefSignal)) (st : S)
  : S * list PrefSignal :=
  if eqb value (member st) then (st, [])
  else
    let st := set value st in
    match signal with
    | Some f => if callSignals then (st, [f st]) else (st, [])
    | None => (st, [])
    end.

(** One statement after another, collecting the signals. *)
Definition and_then {S : Type} (first next : S -> S * list PrefSignal)
    (st : S) : S * list PrefSignal :=
  let '(st1, s1) := first st in
  let '(st2, s2) := next st1 in
  (st2, s1 ++ s2).

Definition on_ctx (f : MainCtx -> MainCtx) (st : MainCtx * PrefMembers)
  : MainCtx * PrefMembers := (f (fst st), snd st).

Definition on_prefs (f : PrefMembers -> PrefMembers)
    (st : MainCtx * PrefMembers) : MainCtx * PrefMembers :=
  (fst st, f (snd st)).

(** [loadPrefs].  [csd_available] is the build-time switch
    [QT_CLIENT_SIDE_DECORATION_AVAILABLE]. *)
Definition loadPrefs (csd_available : bool) (obj : vlc_options)
    (callSignals : bool)
  : MainCtx * PrefMembers -> (MainCtx * PrefMembers) * list PrefSignal :=
  and_then
    (* Are we in the enhanced always-video mode or not ? *)
    (loadFromVLCOption callSignals Bool.eqb
       (fun st => b_minimalView (snd st))
       (fun v => on_prefs (fun p =>
          mkPrefMembers v (i_notificationSetting p) (m_hasToolbarMenu p)
            (m_windowTitlebar p) (m_smoothScroll p)))
       (loadVLCOption_bool obj "qt-minimal-view") None)
  (and_then
    (* Do we want annoying popups or not *)
    (loadFromVLCOption callSignals Z.eqb
       (fun st => i_notificationSetting (snd st))
       (fun v => on_prefs (fun p =>
          mkPrefMembers (b_minimalView p) v (m_hasToolbarMenu p)
            (m_windowTitlebar p) (m_smoothScroll p)))
       (loadVLCOption_int obj "qt-notification") None)
  (and_then
    (* Should the UI stays on top of other windows *)
    (loadFromVLCOption callSignals Bool.eqb
       (fun st => b_interfaceOnTop (fst st))
       (fun v => on_ctx (set_b_interfaceOnTop v))
       (loadVLCOption_bool obj "video-on-top")
       (Some (fun st =>
          sig_interfaceAlwaysOnTopChanged (b_interfaceOnTop (fst st)))))
  (and_then
    (loadFromVLCOption callSignals Bool.eqb
       (fun st => m_hasToolbarMenu (snd st))
       (fun v => on_prefs (fun p =>
          mkPrefMembers (b_minimalView p) (i_notificationSetting p) v
            (m_windowTitlebar p) (m_smoothScroll p)))
       (loadVLCOption_bool obj "qt-menubar")
       (Some (fun _ => hasToolbarMenuChanged)))
  (and_then
    (if csd_available then
       loadFromVLCOption callSignals Bool.eqb
         (fun st => m_windowTitlebar (snd st))
         (fun v => on_prefs (fun p =>
            mkPrefMembers (b_minimalView p) (i_notificationSetting p)
              (m_hasToolbarMenu p) v (m_smoothScroll p)))
         (loadVLCOption_bool obj "qt-titlebar")
         (Some (fun _ => useClientSideDecorationChanged))
     else fun st => (st, []))
    (loadFromVLCOption callSignals Bool.eqb
       (fun st => m_smoothScroll (snd st))
       (fun v => on_prefs (fun p =>
          mkPrefMembers (b_minimalView p) (i_notificationSetting p)
            (m_hasToolbarMenu p) (m_windowTitlebar p) v))
       (loadVLCOption_bool obj "qt-smooth-scrolling")
       (Some (fun _ => smoothScrollChanged))))))).

Definition reloadPrefs (csd_available : bool) (obj : vlc_options)
  : MainCtx * PrefMembers -> (MainCtx * PrefMembers) * list PrefSignal :=
  loadPrefs csd_available obj true.

(** *** Drag and drop *)

Definition is_append (call : DropCall) : bool :=
  match call with
  | append _ _ => true
  | _ => false
  end.

Definition is_attach (call : DropCall) : bool :=
  match call with
  | AddAssociatedMedia_SPU_ES _ _ _ _ => true
  | _ => false
  end.

End QtMore.

(** * Concrete inputs

    Small contexts, stores, events and module states on which the
    properties below are exercised. *)
Module Sample.
Import Qt MacOSX.

(** A main context as the interface has it after a first start. *)
Definition ctx : MainCtx :=
  mkMainCtx true false Double.four false true GROUPING_NONE false false
    false false false ColorScheme_System Double.one Double.one.

Definition two : double := Eval vm_compute in Double.of_Z 2.
Definition minus_two : double := Eval vm_compute in Double.of_Z (-2).

(** An interface whose engine leaves the scale factor to the settings. *)
Definition intf_no_override : qt_intf_t :=
  mk_qt_intf (fun _ => Double.minus_one) None.

(** An interface whose engine sets the scale factor to 2. *)
Definition intf_scale_two : qt_intf_t :=
  mk_qt_intf (fun _ => two) (Some Double.ninety_six).

(** A store that holds an interface scale of 4 and a hidden dock. *)
Definition stored : gmap string QVariant :=
  <[ "MainWindow/interface-scale" := QV_double Double.four ]>
    (<[ "MainWindow/pl-dock-status" := QV_bool false ]> ∅).

Definition url_movie : QUrl :=
  mkQUrl true "file:///movie.mp4" "file:///movie.mp4".

Definition url_sub : QUrl :=
  mkQUrl true "file:///sub.srt" "file:///sub.srt".

(** A drop of one locator that offers the copy action. *)
Definition drop_of (url : QUrl) : QDropEvent :=
  mkQDropEvent CopyAction (mkQMimeData [url] true false EmptyString).

(** The same drop from a source that offers no copy, move or link. *)
Definition drop_without_action (url : QUrl) : QDropEvent :=
  mkQDropEvent 0 (mkQMimeData [url] true false EmptyString).

(** A player that attaches files ending in [.srt] and rejects the rest. *)
Definition attach_srt_only (uri : string) : Z :=
  if String.eqb uri "file:///sub.srt" then 0 else -1.

Definition no_symlink (url : QUrl) : option QUrl := None.

Definition toURI_id (s : string) : string := s.

Definition any_text_valid (s : string) : bool := true.

(** A host with an application, enough memory and a high-resolution
    screen. *)
Definition host : Host :=
  mkHost true true true true true 2%positive None "VLC".

(** The same host without an [NSApplication]. *)
Definition host_without_app : Host :=
  mkHost false true true true true 2%positive None "VLC".

(** The same host when [vlc_obj_calloc] fails. *)
Definition host_out_of_memory : Host :=
  mkHost true false true true true 2%positive None "VLC".

(** The module right after a successful [Open]. *)
Definition opened : State := snd (Open host initial_state).

Definition cfg_720p : vout_window_cfg_t := mk_cfg 1280 720 true.

(** The window [Open] creates on [host]. *)
Definition fresh_window : NSWindow :=
  mkNSWindow decoratedWindowStyleMask NSZeroSize 2 false false
    "VLC (VLC Video Output)" 0.

(** The opened module once the window server has put the window in
    fullscreen. *)
Definition opened_fullscreen : State :=
  set_window
    (Some (set_styleMask
             (Z.lor decoratedWindowStyleMask NSFullScreenWindowMask)
             fresh_window))
    opened.

End Sample.

(** ** More of the window provider *)
Module MacOSXMore.
Import MacOSX.

(** One turn of the main thread: it serves the oldest block pending on the
    main queue. *)
Definition main_queue_step (st : State) : State :=
  match mainQueue st with
  | [] => st
  | block :: rest => run_main_block block (set_mainQueue rest st)
  end.

(** The four report methods of the module delegate. *)
Inductive ReportCall : Type :=
| call_reportFullscreen
| call_reportWindowed
| call_reportSizeChanged (newSize : NSSize)
| call_reportClose.

Definition report_method (call : ReportCall)
  : list EventBlock -> list EventBlock :=
  match call with
  | call_reportFullscreen => reportFullscreen
  | call_reportWindowed => reportWindowed
  | call_reportSizeChanged newSize => reportSizeChanged newSize
  | call_reportClose => reportClose
  end.

(** What the engine is handed for a report call. *)
Definition report_of_call (call : ReportCall) : Report :=
  match call with
  | call_reportFullscreen => vout_window_ReportFullscreen
  | call_reportWindowed => vout_window_ReportWindowed
  | call_reportSizeChanged newSize =>
      vout_window_ReportSize (unsigned_of_CGFloat (width newSize))
        (unsigned_of_CGFloat (height newSize))
  | call_reportClose => vout_window_ReportClose
  end.

(** The sizes whose two components the cast to [unsigned int] is defined
    for: pixel counts, whole or not, from 0 to below 2^32. *)
Definition fits_unsigned (size : NSSize) : Prop :=
  (0 <= width size)%Q /\ (width size < inject_Z (2 ^ 32))%Q /\
  (0 <= height size)%Q /\ (height size < inject_Z (2 ^ 32))%Q.

Definition block_fits_unsigned (block : EventBlock) : Prop :=
  match block with
  | block_reportSizeChanged newSize => fits_unsigned newSize
  | _ => True
  end.

(** The report a block stands for: a size report carries the whole pixels
    of the width and of the height. *)
Definition report_of_block (block : EventBlock) : Report :=
  match block with
  | block_reportFullscreen => vout_window_ReportFullscreen
  | block_reportWindowed => vout_window_ReportWindowed
  | block_reportSizeChanged newSize =>
      vout_window_ReportSize (Qfloor (width newSize))
        (Qfloor (height newSize))
  | block_reportClose => vout_window_ReportClose
  end.

(** The block a report method puts on the event queue. *)
Definition block_of_call (call : ReportCall) : EventBlock :=
  match call with
  | call_reportFullscreen => block_reportFullscreen
  | call_reportWindowed => block_reportWindowed
  | call_reportSizeChanged newSize => block_reportSizeChanged newSize
  | call_reportClose => block_reportClose
  end.

(** A report call made on the UI side, or a turn of the event queue. *)
Inductive QueueEvent : Type :=
| ev_report (call : ReportCall)
| ev_turn.

Definition run_queue_event (ev : QueueEvent) (st : State) : State :=
  match ev with
  | ev_report call => to_moduleDelegate (report_method call) st
  | ev_turn => eventQueue_step st
  end.

Definition reports_of_events (events : list QueueEvent) : list Report :=
  flat_map (fun ev =>
    match ev with
    | ev_report call => [report_of_call call]
    | ev_turn => []
    end) events.

(** The blocks of the report calls among the events, in call order. *)
Definition blocks_of_events (events : list QueueEvent) : list EventBlock :=
  flat_map (fun ev =>
    match ev with
    | ev_report call => [block_of_call call]
    | ev_turn => []
    end) events.

(** What can happen to an open module: a request of the engine, a turn of
    the main thread, something on the UI side (a report, a callback of the
    window or of its view, a turn of the event queue), or a change AppKit
    makes to the window and tells the content view about: the user gives
    the window another size, the window lands on a screen of another
    backing scale factor, or the window server ends a fullscreen
    transition. *)
Inductive Activity : Type :=
| engine_WindowEnable (cfg : vout_window_cfg_t)
| engine_WindowDisable
| engine_WindowResize (w h : Z)
| engine_SetDecoration (decorated : bool)
| engine_WindowSetFullscreen
| engine_WindowUnsetFullscreen
| engine_WindowSetTitle (t : string)
| main_thread_turn
| ui_side (call : LateCall)
| user_resizes (size : NSSize)
| screen_changes (scale : positive)
| fullscreen_transition_ends (mask : Z).

Definition perform (a : Activity) (st : State) : State :=
  match a with
  | engine_WindowEnable cfg => snd (WindowEnable cfg st)
  | engine_WindowDisable => WindowDisable st
  | engine_WindowResize w h => WindowResize w h st
  | engine_SetDecoration decorated => SetDecoration decorated st
  | engine_WindowSetFullscreen => WindowSetFullscreen st
  | engine_WindowUnsetFullscreen => WindowUnsetFullscreen st
  | engine_WindowSetTitle t => WindowSetTitle t st
  | main_thread_turn => main_queue_step st
  | ui_side call => late_call call st
  | user_resizes size =>
      resizeSubviewsWithOldSize (on_window (set_contentSize size) st)
  | screen_changes scale =>
      viewDidChangeBackingProperties
        (on_window (set_backingScaleFactor scale) st)
  | fullscreen_transition_ends mask =>
      let st := on_window (set_styleMask mask) st in
      if isWindowFullscreen st then windowDidEnterFullScreen st
      else windowDidExitFullScreen st
  end.

(** The module between a successful [Open] and [Close]. *)
Definition module_open (st : State) : Prop :=
  wnd_ops st = true /\ wnd_sys st = true /\
  sys_windowController st = true /\ sys_delegate st = true /\
  delegate st <> None /\ window st <> None.

(** What no activity changes on an open module: it stays open, the event
    queue is not stuck, the type the engine was given stays, and what the
    engine received is only extended. *)
Definition kept (type : vout_window_type) (received : list Report)
    (st : State) : Prop :=
  module_open st /\
  eventQueue_deadlock st = false /\
  wnd_type st = type /\
  exists more, reported st = received ++ more.

End MacOSXMore.

(** More concrete inputs. *)
Module SampleMore.
Import Qt QtMore MacOSX.

(** A context a user has changed: undocked, visible playlist, list view,
    scale 2. *)
Definition changed_ctx : MainCtx :=
  mkMainCtx false true Sample.two true false 1 true true false false false
    2 Sample.two Sample.two.

Definition zero_three : double :=
  Eval vm_compute in Double.div (Double.of_Z 3) (Double.of_Z 10).

Definition three : double := Eval vm_compute in Double.of_Z 3.

Definition options : vlc_options :=
  mk_vlc_options
    (fun name => String.eqb name "video-on-top")
    (fun name => 1).

Definition prefs : PrefMembers := mkPrefMembers true 0 true true true.

End SampleMore.

(** * Properties *)

Import Qt MacOSX.

(** ** The model at work *)
Section Examples.

(** A reload with signals enabled announces each member that changed. *)
Example reload_signals :
  signals_of
    (loadFromSettingsImpl Sample.intf_no_override Sample.stored true
       Sample.ctx)
  = [playlistDockedChanged false; intfScaleFactorChanged].
Proof. vm_compute. reflexivity. Qed.

(** The persisted scale goes through the [float] local: 1.1 comes back as
    the nearest single-precision value. *)
Example persisted_scale_is_narrowed :
  Double.through_float (Double.div (Double.of_Z 11) (Double.of_Z 10))
  = S754_finite false 4953959697481728 (-52).
Proof. vm_compute. reflexivity. Qed.

(** A movie dropped on active media is first offered as a subtitle, then
    enqueued. *)
Example drop_movie_on_active_media :
  dropEventPlay Sample.toURI_id Sample.any_text_valid Sample.no_symlink
    true Sample.attach_srt_only (Sample.drop_of Sample.url_movie) true
  = [setDropAction CopyAction;
     AddAssociatedMedia_SPU_ES "file:///movie.mp4" true true true;
     append [mkMedia "file:///movie.mp4" EmptyString] true;
     accept].
Proof. reflexivity. Qed.

(** Requests made before an enable request are served before it. *)
Example enable_after_pending_requests :
  window
    (snd (WindowEnable Sample.cfg_720p
            (WindowSetFullscreen (WindowResize 640 480 Sample.opened))))
  = Some
      (mkNSWindow decoratedWindowStyleMask (NSMakeSize (1280 # 2) (720 # 2))
         2 true true "VLC (VLC Video Output)" 1).
Proof. reflexivity. Qed.

(** A report block pending when the module closes retains the delegate:
    the block is still handed to the engine, and the release of the block
    leaves the event queue stuck in [dealloc]. *)
Example close_with_pending_report :
  delegate (Close (windowDidEnterFullScreen Sample.opened))
  = Some [block_reportFullscreen] /\
  reported
    (eventQueue_step (Close (windowDidEnterFullScreen Sample.opened)))
  = [vout_window_ReportFullscreen] /\
  eventQueue_deadlock
    (eventQueue_step (Close (windowDidEnterFullScreen Sample.opened)))
  = true.
Proof. repeat split. Qed.

End Examples.

(** ** Facts about [double] comparisons *)
Section DoubleFacts.

Lemma SFeqb_finite_eq (s : bool) (m : positive) (e : Z) (y : double) :
  SFeqb (S754_finite s m e) y = true -> y = S754_finite s m e.
Proof.
  unfold SFeqb, SFcompare.
  destruct y as [s'| s' | | s' m' e']; try (destruct s, s'; discriminate).
  - destruct s; discriminate.
  - change (Pos.compare_cont Eq m m') with (Pos.compare m m').
    destruct s, s'; try discriminate;
      destruct (Z.compare_spec e e') as [He | He | He]; try discriminate;
      destruct (Pos.compare_spec m m') as [Hm | Hm | Hm];
      simpl; try discriminate; intros _; subst; reflexivity.
Qed.

Lemma SFleb_zero_not_gt (x : double) :
  SFleb x Double.zero = true -> SFltb Double.zero x = false.
Proof.
  unfold SFleb, SFltb, SFcompare, Double.zero.
  destruct x as [s | [|] | | [|] m e]; simpl; congruence.
Qed.

Lemma SFltb_zero_not_le (x : double) :
  SFltb Double.zero x = true -> SFleb x Double.zero = false.
Proof.
  unfold SFleb, SFltb, SFcompare, Double.zero.
  destruct x as [s | [|] | | [|] m e]; simpl; congruence.
Qed.

Lemma SFeqb_sym (x y : double) : SFeqb x y = SFeqb y x.
Proof.
  unfold SFeqb.
  destruct x as [sx | sx | | sx mx ex], y as [sy | sy | | sy my ey];
    cbn [SFcompare]; try reflexivity;
    try (destruct sx, sy; reflexivity);
    try (destruct sx; reflexivity); try (destruct sy; reflexivity).
  change (Pos.compare_cont Eq mx my) with (Pos.compare mx my).
  change (Pos.compare_cont Eq my mx) with (Pos.compare my mx).
  rewrite (Z.compare_antisym ey ex), (Pos.compare_antisym my mx).
  destruct sx, sy; try reflexivity;
    destruct (ey ?= ex)%Z; cbn; try reflexivity;
    destruct (my ?= mx)%positive; reflexivity.
Qed.

Lemma SFcompare_antisym (x y : double) :
  SFcompare y x = option_map CompOpp (SFcompare x y).
Proof.
  destruct x as [sx | sx | | sx mx ex], y as [sy | sy | | sy my ey];
    cbn [SFcompare option_map]; try reflexivity;
    try (destruct sx, sy; reflexivity);
    try (destruct sx; reflexivity); try (destruct sy; reflexivity).
  change (Pos.compare_cont Eq mx my) with (Pos.compare mx my).
  change (Pos.compare_cont Eq my mx) with (Pos.compare my mx).
  rewrite (Z.compare_antisym ex ey), (Pos.compare_antisym mx my).
  destruct sx, sy; try reflexivity;
    destruct (ex ?= ey)%Z; cbn; try reflexivity;
    destruct (mx ?= my)%positive; reflexivity.
Qed.

Lemma SFleb_SFltb_false (x y : double) :
  SFleb x y = true -> SFltb y x = false.
Proof.
  unfold SFltb, SFleb. rewrite (SFcompare_antisym x y).
  now destruct (SFcompare x y) as [[| |] |].
Qed.

(** Two values that compare equal are the same value, up to the sign of a
    zero. *)
Lemma SFeqb_same_double (x y : double) :
  SFeqb x y = true -> QtMore.same_double y x.
Proof.
  unfold QtMore.same_double. intros E.
  destruct x as [s | s | | s m e].
  - destruct y as [s' | s' | | s' m' e']; try discriminate.
    + right. eauto.
    + destruct s'; discriminate.
    + destruct s'; discriminate.
  - left. destruct y as [s' | s' | | s' m' e']; try discriminate;
      destruct s, s'; try discriminate; reflexivity.
  - discriminate.
  - left. now apply SFeqb_finite_eq in E.
Qed.

(** [qBound] leaves a value that lies within the bounds as it is, up to the
    sign of a zero. *)
Lemma qBound_within (min val max : double) :
  Double.leb min val = true -> Double.leb val max = true ->
  QtMore.same_double (QtMore.qBound min val max) val.
Proof.
  unfold Double.leb. intros Hlo Hhi.
  unfold QtMore.qBound, QtMore.qMax, QtMore.qMin, Double.ltb.
  rewrite (SFleb_SFltb_false _ _ Hhi).
  destruct (SFltb min val) eqn:Hlt; [now left |].
  apply SFeqb_same_double.
  unfold SFeqb, SFleb, SFltb in *. rewrite (SFcompare_antisym min val).
  now destruct (SFcompare min val) as [[| |] |].
Qed.

End DoubleFacts.

(** ** Setters of the observable state *)
Section Setters.

Local Open Scope method_scope.

Lemma set_get_id (c : MainCtx) :
  set_b_playlistDocked (b_playlistDocked c) c = c /\
  set_playlistVisible (playlistVisible c) c = c /\
  set_m_showRemainingTime (m_showRemainingTime c) c = c /\
  set_m_gridView (m_gridView c) c = c /\
  set_m_grouping (m_grouping c) c = c /\
  set_b_interfaceOnTop (b_interfaceOnTop c) c = c.
Proof. destruct c; repeat split. Qed.

(** C1, as stated, fails: the setter of the playlist-docked field called
    with the value the field already has emits its change signal. *)
Lemma setPlaylistDocked_current_value_emits :
  b_playlistDocked Sample.ctx = true /\
  signals_of (setPlaylistDocked true Sample.ctx)
  = [playlistDockedChanged true].
Proof. split; reflexivity. Qed.

(** C1, amended: a setter of the observable state called with the current
    value of its field.  The setters that compare first (pin video
    controls, acrylic surface, acrylic active, prefer hotkeys) leave the
    context unchanged and emit nothing.  The setters of playlist docked,
    playlist visible, show remaining time, grid view, grouping and
    interface on top leave the context unchanged and emit exactly one
    change signal, carrying that value.  The playlist width factor setter
    leaves the context unchanged and emits its change signal exactly when
    the value is greater than 0.0.  The user scale factor setter stores the
    value clamped to the bounds, which is the value itself (up to the sign
    of a zero) when it lies within them, recomputes the interface scale
    factor from what it stored, and emits [intfScaleFactorChanged] once. *)
Theorem setters_called_with_current_value (c : MainCtx) (p_intf : qt_intf_t)
    (getMinIntfUserScaleFactor getMaxIntfUserScaleFactor : double) :
  setPinVideoControls (m_pinVideoControls c) c = (tt, c, []) /\
  setHasAcrylicSurface (m_hasAcrylicSurface c) c = (tt, c, []) /\
  setAcrylicActive (m_acrylicActive c) c = (tt, c, []) /\
  setPreferHotkeys (m_preferHotkeys c) c = (tt, c, []) /\
  setPlaylistDocked (b_playlistDocked c) c
  = (tt, c, [playlistDockedChanged (b_playlistDocked c)]) /\
  setPlaylistVisible (playlistVisible c) c
  = (tt, c, [playlistVisibleChanged (playlistVisible c)]) /\
  setShowRemainingTime (m_showRemainingTime c) c
  = (tt, c, [showRemainingTimeChanged (m_showRemainingTime c)]) /\
  setGridView (m_gridView c) c
  = (tt, c, [gridViewChanged (m_gridView c)]) /\
  setGrouping (m_grouping c) c
  = (tt, c, [groupingChanged (m_grouping c)]) /\
  setInterfaceAlwaysOnTop (b_interfaceOnTop c) c
  = (tt, c, [interfaceAlwaysOnTopChanged (b_interfaceOnTop c)]) /\
  setPlaylistWidthFactor (playlistWidthFactor c) c
  = (tt, c,
     if Double.ltb Double.zero (playlistWidthFactor c)
     then [playlistWidthFactorChanged (playlistWidthFactor c)]
     else []) /\
  let stored :=
    QtMore.qBound getMinIntfUserScaleFactor (m_intfUserScaleFactor c)
      getMaxIntfUserScaleFactor in
  QtMore.setIntfUserScaleFactor getMinIntfUserScaleFactor
    getMaxIntfUserScaleFactor p_intf (m_intfUserScaleFactor c) c
  = (tt,
     set_m_intfScaleFactor (QtMore.intfScaleFactor_of p_intf stored)
       (set_m_intfUserScaleFactor stored c),
     [intfScaleFactorChanged]) /\
  (Double.leb getMinIntfUserScaleFactor (m_intfUserScaleFactor c) = true ->
   Double.leb (m_intfUserScaleFactor c) getMaxIntfUserScaleFactor = true ->
   QtMore.same_double stored (m_intfUserScaleFactor c)).
Proof.
  destruct (set_get_id c) as (Hd & Hv & Hr & Hg & Hgr & Ht).
  repeat match goal with |- _ /\ _ => split end.
  - unfold setPinVideoControls, bind, read. simpl.
    now rewrite Bool.eqb_reflx.
  - unfold setHasAcrylicSurface, bind, read. simpl.
    now rewrite Bool.eqb_reflx.
  - unfold setAcrylicActive, bind, read. simpl.
    now rewrite Bool.eqb_reflx.
  - unfold setPreferHotkeys, bind, read. simpl.
    now rewrite Bool.eqb_reflx.
  - unfold setPlaylistDocked, bind, assign, emit. simpl. now rewrite Hd.
  - unfold setPlaylistVisible, bind, assign, emit. simpl. now rewrite Hv.
  - unfold setShowRemainingTime, bind, assign, emit. simpl. now rewrite Hr.
  - unfold setGridView, bind, assign, emit. simpl. now rewrite Hg.
  - unfold setGrouping, bind, assign, emit. simpl. now rewrite Hgr.
  - unfold setInterfaceAlwaysOnTop, bind, assign, emit. simpl.
    now rewrite Ht.
  - unfold setPlaylistWidthFactor.
    destruct (Double.ltb Double.zero (playlistWidthFactor c));
      [| reflexivity].
    unfold bind, assign, emit. simpl. now destruct c.
  - intros stored. split.
    + unfold QtMore.setIntfUserScaleFactor, updateIntfScaleFactor,
        QtMore.intfScaleFactor_of, bind, assign, read, emit, ret.
      fold stored. destruct (logicalDotsPerInch p_intf); reflexivity.
    + intros Hlo Hhi. now apply qBound_within.
Qed.

(** The user scale factor setter called with the current value changes it
    when a settings load left a value outside the bounds: with bounds 0.3
    and 3.0, a loaded 4.0 becomes 3.0. *)
Example setIntfUserScaleFactor_current_value_clamped :
  let c :=
    ctx_of (loadFromSettingsImpl Sample.intf_no_override Sample.stored false
              Sample.ctx) in
  m_intfUserScaleFactor c = Double.four /\
  m_intfUserScaleFactor
    (ctx_of (QtMore.setIntfUserScaleFactor SampleMore.zero_three
               SampleMore.three Sample.intf_no_override
               (m_intfUserScaleFactor c) c))
  = SampleMore.three.
Proof. split; vm_compute; reflexivity. Qed.

Lemma setters_called_with_current_value_witness :
  QtMore.setIntfUserScaleFactor SampleMore.zero_three SampleMore.three
    Sample.intf_no_override Double.one Sample.ctx
  = (tt, Sample.ctx, [intfScaleFactorChanged]) /\
  QtMore.same_double
    (QtMore.qBound SampleMore.zero_three Double.one SampleMore.three)
    Double.one.
Proof.
  destruct (setters_called_with_current_value Sample.ctx
              Sample.intf_no_override SampleMore.zero_three SampleMore.three)
    as (_ & _ & _ & _ & _ & _ & _ & _ & _ & _ & _ & Hset & Hwithin).
  split; [exact Hset | exact (Hwithin eq_refl eq_refl)].
Defined.

(** C10: the playlist width factor setter ignores a factor that is less
    than or equal to 0.0 (context unchanged, nothing emitted); a factor
    greater than 0.0 is stored and signalled exactly once, whatever the
    stored value was. *)
Theorem setPlaylistWidthFactor_guard (factor : double) (c : MainCtx) :
  (Double.leb factor Double.zero = true ->
   setPlaylistWidthFactor factor c = (tt, c, [])) /\
  (Double.ltb Double.zero factor = true ->
   setPlaylistWidthFactor factor c
   = (tt, set_playlistWidthFactor factor c,
      [playlistWidthFactorChanged factor]) /\
   playlistWidthFactor (set_playlistWidthFactor factor c) = factor).
Proof.
  unfold setPlaylistWidthFactor, Double.leb, Double.ltb. split.
  - intros Hle. now rewrite (SFleb_zero_not_gt _ Hle).
  - intros Hgt. rewrite Hgt. split; reflexivity.
Qed.

Lemma setPlaylistWidthFactor_guard_witness :
  setPlaylistWidthFactor Sample.minus_two Sample.ctx = (tt, Sample.ctx, []) /\
  setPlaylistWidthFactor Double.zero Sample.ctx = (tt, Sample.ctx, []) /\
  setPlaylistWidthFactor Double.four Sample.ctx
  = (tt, Sample.ctx, [playlistWidthFactorChanged Double.four]).
Proof.
  split; [| split].
  - apply (proj1 (setPlaylistWidthFactor_guard Sample.minus_two Sample.ctx)).
    reflexivity.
  - apply (proj1 (setPlaylistWidthFactor_guard Double.zero Sample.ctx)).
    reflexivity.
  - apply (proj1 (proj2 (setPlaylistWidthFactor_guard Double.four Sample.ctx)
                    eq_refl)).
Defined.

End Setters.

(** ** Loading the persisted settings *)
Section LoadSettings.

Local Open Scope method_scope.

Lemma loadFromSettings_ctx {T : Type} settings callSignals
    (conv : QVariant -> T) eqb member set name defaultValue signal c :
  ctx_of (loadFromSettings settings callSignals conv eqb member set
            name defaultValue signal c)
  = loaded_member eqb member set
      (conv (QSettings_value settings name defaultValue)) c.
Proof.
  unfold loadFromSettings, loaded_member, bind, read, assign, ctx_of.
  simpl. destruct (eqb _ (member c)); [reflexivity |].
  destruct callSignals; reflexivity.
Qed.

Lemma ctx_of_bind {A B : Type} (m : M A) (k : A -> M B) (c : MainCtx) :
  ctx_of (bind m k c) = ctx_of (k (fst (fst (m c))) (ctx_of (m c))).
Proof.
  unfold bind, ctx_of. destruct (m c) as [[a c1] s1]. simpl.
  destruct (k a c1) as [[b c2] s2]. reflexivity.
Qed.

Lemma QSettings_value_empty (key : string) (defaultValue : QVariant) :
  QSettings_value ∅ key defaultValue = defaultValue.
Proof. unfold QSettings_value. now rewrite lookup_empty. Qed.

Lemma loaded_member_frame {T A : Type} (eqb : T -> T -> bool)
    (member : MainCtx -> T) (set : T -> MainCtx -> MainCtx) (value : T)
    (other : MainCtx -> A) (c : MainCtx) :
  (forall v c0, other (set v c0) = other c0) ->
  other (loaded_member eqb member set value c) = other c.
Proof. intros H. unfold loaded_member. destruct (eqb _ _); auto. Qed.

Lemma loaded_member_self {T : Type} (eqb : T -> T -> bool)
    (member : MainCtx -> T) (set : T -> MainCtx -> MainCtx) (value : T)
    (c : MainCtx) :
  (forall v c0, member (set v c0) = v) ->
  member (loaded_member eqb member set value c)
  = loaded_value eqb value (member c).
Proof.
  intros H. unfold loaded_member, loaded_value.
  destruct (eqb _ _); auto.
Qed.

Lemma colorScheme_step_ctx (scheme : ColorScheme) (c : MainCtx) :
  ctx_of ((current <- read m_colorScheme ;;
           if negb (current =? scheme) then setCurrentScheme scheme
           else ret tt) c)
  = loaded_member Z.eqb m_colorScheme set_m_colorScheme scheme c.
Proof.
  unfold bind, read, setCurrentScheme, assign, emit, ret, ctx_of,
    loaded_member.
  cbn [fst snd]. rewrite (Z.eqb_sym scheme).
  destruct (m_colorScheme c =? scheme); reflexivity.
Qed.

(** The last step of [loadFromSettingsImpl] touches the two scale factors
    only. *)
Lemma scale_step_ctx (p_intf : qt_intf_t) (user : double) (c : MainCtx) :
  let c' :=
    ctx_of ((current <- read m_intfUserScaleFactor ;;
             if Double.neqb current user then
               assign set_m_intfUserScaleFactor user ;;
               updateIntfScaleFactor p_intf
             else ret tt) c) in
  m_intfUserScaleFactor c'
  = loaded_value Double.eqb user (m_intfUserScaleFactor c) /\
  b_playlistDocked c' = b_playlistDocked c /\
  playlistVisible c' = playlistVisible c /\
  playlistWidthFactor c' = playlistWidthFactor c /\
  m_gridView c' = m_gridView c /\
  m_grouping c' = m_grouping c /\
  m_colorScheme c' = m_colorScheme c.
Proof.
  unfold bind, read, ctx_of, loaded_value, Double.neqb, Double.eqb.
  cbn [fst snd].
  pose proof (SFeqb_sym user (m_intfUserScaleFactor c)) as Hsym.
  rewrite Hsym.
  destruct (SFeqb (m_intfUserScaleFactor c) user); cbn.
  - repeat split; reflexivity.
  - unfold updateIntfScaleFactor, bind, read, assign, emit, ret.
    destruct (logicalDotsPerInch p_intf); cbn; repeat split; reflexivity.
Qed.

(** The members [loadFromSettingsImpl] leaves: each takes the value read
    for it, unless the old value compares equal to it. *)
Lemma loadFromSettingsImpl_members p_intf settings callSignals c :
  let value key dflt := QSettings_value settings key dflt in
  let c' := ctx_of (loadFromSettingsImpl p_intf settings callSignals c) in
  b_playlistDocked c'
  = loaded_value Bool.eqb
      (QVariant_toBool (value "MainWindow/pl-dock-status" (QV_bool true)))
      (b_playlistDocked c) /\
  playlistVisible c'
  = loaded_value Bool.eqb
      (QVariant_toBool (value "MainWindow/playlist-visible" (QV_bool false)))
      (playlistVisible c) /\
  playlistWidthFactor c'
  = loaded_value Double.eqb
      (QVariant_toDouble
         (value "MainWindow/playlist-width-factor" (QV_double Double.four)))
      (playlistWidthFactor c) /\
  m_gridView c'
  = loaded_value Bool.eqb
      (QVariant_toBool (value "MainWindow/grid-view" (QV_bool true)))
      (m_gridView c) /\
  m_grouping c'
  = loaded_value Z.eqb
      (QVariant_toInt (value "MainWindow/grouping" (QV_int GROUPING_NONE)))
      (m_grouping c) /\
  m_colorScheme c'
  = loaded_value Z.eqb
      (QVariant_toInt
         (value "MainWindow/color-scheme" (QV_int ColorScheme_System)))
      (m_colorScheme c) /\
  m_intfUserScaleFactor c'
  = loaded_value Double.eqb (userIntfScaleFactor p_intf settings)
      (m_intfUserScaleFactor c).
Proof.
  intros value c'. subst c'. unfold loadFromSettingsImpl.
  repeat (rewrite ctx_of_bind; rewrite loadFromSettings_ctx).
  rewrite ctx_of_bind, colorScheme_step_ctx.
  match goal with
  | |- context [ctx_of (_ ?x)] =>
      destruct (scale_step_ctx p_intf (userIntfScaleFactor p_intf settings) x)
        as (Hs & Hd & Hv & Hw & Hg & Hgr & Hc)
  end.
  unfold userIntfScaleFactor in *.
  rewrite Hs, Hd, Hv, Hw, Hg, Hgr, Hc. clear Hs Hd Hv Hw Hg Hgr Hc.
  repeat split;
    repeat (first
      [ rewrite loaded_member_self by reflexivity
      | rewrite loaded_member_frame by reflexivity ]);
    reflexivity.
Qed.

(** C4, as stated, fails for the interface scale: with an empty store and
    an engine option [qt-interface-scale] of 2, the loaded scale factor is 2
    and not the default 1.0. *)
Lemma empty_store_scale_not_default :
  m_intfUserScaleFactor
    (ctx_of (loadFromSettingsImpl Sample.intf_scale_two ∅ false Sample.ctx))
  = Sample.two /\
  Sample.two <> Double.one.
Proof. split; [vm_compute; reflexivity | discriminate]. Qed.

(** C4, amended: loading from an empty settings store leaves playlist dock
    status true, playlist visible false, playlist width factor 4.0, grid
    view true, grouping NONE and colour scheme SYSTEM.  It leaves the
    interface scale 1.0 when the engine-inherited [qt-interface-scale] is
    the sentinel -1, and otherwise the interface scale is the
    engine-inherited value: the member is assigned it unless it already
    compares equal to it, so the two are the same value up to the sign of
    a zero. *)
Theorem load_empty_store_defaults (p_intf : qt_intf_t) (callSignals : bool)
    (c : MainCtx) :
  let c' := ctx_of (loadFromSettingsImpl p_intf ∅ callSignals c) in
  b_playlistDocked c' = true /\
  playlistVisible c' = false /\
  playlistWidthFactor c' = Double.four /\
  m_gridView c' = true /\
  m_grouping c' = GROUPING_NONE /\
  m_colorScheme c' = ColorScheme_System /\
  (Double.eqb (var_InheritFloat p_intf "qt-interface-scale")
     Double.minus_one = true ->
   m_intfUserScaleFactor c' = Double.one) /\
  (Double.eqb (var_InheritFloat p_intf "qt-interface-scale")
     Double.minus_one = false ->
   m_intfUserScaleFactor c'
   = (if Double.eqb (var_InheritFloat p_intf "qt-interface-scale")
           (m_intfUserScaleFactor c)
      then m_intfUserScaleFactor c
      else var_InheritFloat p_intf "qt-interface-scale") /\
   QtMore.same_double (m_intfUserScaleFactor c')
     (var_InheritFloat p_intf "qt-interface-scale")).
Proof.
  intros c'.
  destruct (loadFromSettingsImpl_members p_intf ∅ callSignals c)
    as (Hd & Hv & Hw & Hg & Hgr & Hc & Hs).
  fold c' in Hd, Hv, Hw, Hg, Hgr, Hc, Hs.
  rewrite !QSettings_value_empty in Hd, Hv, Hw, Hg, Hgr, Hc.
  cbn [QVariant_toBool QVariant_toInt QVariant_toDouble] in *.
  unfold loaded_value in *.
  repeat match goal with |- _ /\ _ => split end.
  - rewrite Hd. now destruct (b_playlistDocked c).
  - rewrite Hv. now destruct (playlistVisible c).
  - rewrite Hw.
    destruct (Double.eqb Double.four (playlistWidthFactor c)) eqn:E;
      [| reflexivity].
    now apply SFeqb_finite_eq in E.
  - rewrite Hg. now destruct (m_gridView c).
  - rewrite Hgr. destruct (Z.eqb_spec GROUPING_NONE (m_grouping c));
      congruence.
  - rewrite Hc. destruct (Z.eqb_spec ColorScheme_System (m_colorScheme c));
      congruence.
  - intros Hinh. rewrite Hs. unfold userIntfScaleFactor.
    rewrite Hinh, QSettings_value_empty.
    change (Double.through_float (QVariant_toDouble (QV_double Double.one)))
      with Double.one.
    destruct (Double.eqb Double.one (m_intfUserScaleFactor c)) eqn:E;
      [| reflexivity].
    now apply SFeqb_finite_eq in E.
  - intros Hinh. rewrite Hs. unfold userIntfScaleFactor.
    rewrite Hinh. split; [reflexivity |].
    destruct (Double.eqb (var_InheritFloat p_intf "qt-interface-scale")
                (m_intfUserScaleFactor c)) eqn:E; [| now left].
    now apply SFeqb_same_double.
Qed.

(** The engine-inherited scale wins over the default on an empty store,
    whatever the member held. *)
Example empty_store_takes_inherited_scale :
  m_intfUserScaleFactor
    (ctx_of (loadFromSettingsImpl Sample.intf_scale_two ∅ true Sample.ctx))
  = Sample.two.
Proof. vm_compute. reflexivity. Qed.

Lemma load_empty_store_defaults_witness :
  let c' :=
    ctx_of (loadFromSettingsImpl Sample.intf_no_override ∅ true
              (set_m_intfUserScaleFactor Sample.two Sample.ctx)) in
  (b_playlistDocked c' = true /\
   playlistVisible c' = false /\
   playlistWidthFactor c' = Double.four /\
   m_gridView c' = true /\
   m_grouping c' = GROUPING_NONE /\
   m_colorScheme c' = ColorScheme_System /\
   m_intfUserScaleFactor c' = Double.one) /\
  QtMore.same_double
    (m_intfUserScaleFactor
       (ctx_of (loadFromSettingsImpl Sample.intf_scale_two ∅ true
                  Sample.ctx)))
    Sample.two.
Proof.
  destruct (load_empty_store_defaults Sample.intf_no_override true
              (set_m_intfUserScaleFactor Sample.two Sample.ctx))
    as (H1 & H2 & H3 & H4 & H5 & H6 & H7 & _).
  destruct (load_empty_store_defaults Sample.intf_scale_two true Sample.ctx)
    as (_ & _ & _ & _ & _ & _ & _ & H8).
  exact (conj (conj H1 (conj H2 (conj H3 (conj H4 (conj H5 (conj H6
                 (H7 eq_refl)))))))
           (proj2 (H8 eq_refl))).
Defined.

(** C5: on every settings load the candidate interface scale factor is the
    engine-inherited [qt-interface-scale]; only when that is the sentinel -1
    is it the persisted [MainWindow/interface-scale] (default 1.0, read as a
    double and held in the float local).  The member takes the candidate
    unless it already compares equal to it.  So when the inherited value is
    not -1, the loaded scale factor is the same for every settings store. *)
Theorem interface_scale_precedence (p_intf : qt_intf_t)
    (settings : gmap string QVariant) (callSignals : bool) (c : MainCtx) :
  let inherited := var_InheritFloat p_intf "qt-interface-scale" in
  let persisted :=
    Double.through_float
      (QVariant_toDouble
         (default (QV_double Double.one)
            (settings !! "MainWindow/interface-scale"))) in
  let loaded s :=
    m_intfUserScaleFactor
      (ctx_of (loadFromSettingsImpl p_intf s callSignals c)) in
  (Double.eqb inherited Double.minus_one = false ->
   loaded settings
   = loaded_value Double.eqb inherited (m_intfUserScaleFactor c) /\
   forall settings', loaded settings' = loaded settings) /\
  (Double.eqb inherited Double.minus_one = true ->
   loaded settings
   = loaded_value Double.eqb persisted (m_intfUserScaleFactor c)).
Proof.
  intros inherited persisted loaded.
  assert (H : forall s, loaded s
                = loaded_value Double.eqb (userIntfScaleFactor p_intf s)
                    (m_intfUserScaleFactor c)).
  { intros s. subst loaded.
    now destruct (loadFromSettingsImpl_members p_intf s callSignals c)
      as (_ & _ & _ & _ & _ & _ & Hs). }
  split; intros Hinh.
  - assert (Hu : forall s, userIntfScaleFactor p_intf s = inherited).
    { intros s. unfold userIntfScaleFactor. fold inherited.
      now rewrite Hinh. }
    split.
    + now rewrite H, Hu.
    + intros s. now rewrite !H, !Hu.
  - rewrite H. unfold userIntfScaleFactor. fold inherited.
    now rewrite Hinh.
Qed.

Lemma interface_scale_precedence_witness :
  m_intfUserScaleFactor
    (ctx_of (loadFromSettingsImpl Sample.intf_scale_two Sample.stored true
               Sample.ctx))
  = Sample.two /\
  m_intfUserScaleFactor
    (ctx_of (loadFromSettingsImpl Sample.intf_no_override Sample.stored true
               Sample.ctx))
  = Double.four.
Proof.
  split.
  - exact (proj1 (proj1 (interface_scale_precedence Sample.intf_scale_two
                           Sample.stored true Sample.ctx) eq_refl)).
  - exact (proj2 (interface_scale_precedence Sample.intf_no_override
                    Sample.stored true Sample.ctx) eq_refl).
Defined.

End LoadSettings.

(** ** Drag and drop *)
Section DropEvents.

Variable toURI : string -> string.
Variable isValidUrlText : string -> bool.
Variable symLinkTargetUrl : QUrl -> option QUrl.
Variable AddAssociatedMedia : string -> Z.

Lemma nonempty_length (m : string) :
  m <> EmptyString -> (0 <? Z.of_nat (String.length m)) = true.
Proof. destruct m; [congruence | intros _; reflexivity]. Qed.

Lemma playlist_after_enqueue_dropped (event : QDropEvent) (b_play : bool)
    (queue : list Media) :
  playlist_after
    (enqueue_dropped toURI isValidUrlText symLinkTargetUrl event b_play)
    queue
  = queue
    ++ dropped_medias toURI symLinkTargetUrl (urls (mimeData event))
    ++ dropped_text toURI isValidUrlText (mimeData event).
Proof.
  unfold enqueue_dropped.
  destruct (dropped_medias _ _ _ ++ dropped_text _ _ _) as [| m l];
    simpl; [now rewrite app_nil_r | reflexivity].
Qed.

Lemma In_dropped_medias (l : list QUrl) (url : QUrl) :
  In url l -> isValid url = true ->
  dropped_mrl toURI symLinkTargetUrl url <> EmptyString ->
  In (mkMedia (dropped_mrl toURI symLinkTargetUrl url) EmptyString)
    (dropped_medias toURI symLinkTargetUrl l).
Proof.
  intros Hin Hvalid Hmrl. induction l as [| u l IH]; [contradiction |].
  simpl. destruct Hin as [-> | Hin].
  - rewrite Hvalid, (nonempty_length _ Hmrl). now left.
  - destruct (isValid u); [| auto].
    destruct (0 <? _); [right |]; auto.
Qed.

(** C3, amended: for a drop that offers the copy, move or link action.
    With exactly one locator and active media, the first request is the
    attachment of that locator as a subtitle track; when the player
    attaches it (status 0) the queue stays as it is, and when the player
    rejects it the drop is enqueued like any other, so that a valid locator
    with a non-empty playback URI is appended.  With no active media the
    queue grows by the media of the valid locators with a non-empty URI, in
    order (followed by the media of the textual content when the drop has
    no locator list), so each such locator is in the queue.  A drop that
    offers none of the three actions does nothing. *)
Theorem dropEventPlay_subtitle_first (hasInput : bool) (event : QDropEvent)
    (b_play : bool) (queue : list Media) :
  let calls :=
    dropEventPlay toURI isValidUrlText symLinkTargetUrl hasInput
      AddAssociatedMedia event b_play in
  let mime := mimeData event in
  let offered :=
    Z.land (possibleActions event)
      (Z.lor (Z.lor CopyAction MoveAction) LinkAction) in
  let mrl_of := dropped_mrl toURI symLinkTargetUrl in
  (offered <> 0 -> hasInput = true ->
   forall url, urls mime = [url] ->
     first_request calls
     = Some (AddAssociatedMedia_SPU_ES (toString url) true true true) /\
     (AddAssociatedMedia (toString url) = 0 ->
      playlist_after calls queue = queue) /\
     (AddAssociatedMedia (toString url) <> 0 ->
      isValid url = true -> mrl_of url <> EmptyString ->
      playlist_after calls queue
      = queue ++ [mkMedia (mrl_of url) EmptyString]
        ++ dropped_text toURI isValidUrlText mime)) /\
  (offered <> 0 -> hasInput = false ->
   playlist_after calls queue
   = queue ++ dropped_medias toURI symLinkTargetUrl (urls mime)
     ++ dropped_text toURI isValidUrlText mime /\
   forall url, In url (urls mime) -> isValid url = true ->
     mrl_of url <> EmptyString ->
     In (mkMedia (mrl_of url) EmptyString) (playlist_after calls queue)) /\
  (offered = 0 -> calls = []).
Proof.
  intros calls mime offered mrl_of. subst calls. unfold dropEventPlay.
  fold offered. fold mime.
  assert (Hq : playlist_after
             (setDropAction CopyAction ::
              enqueue_dropped toURI isValidUrlText symLinkTargetUrl event
                b_play) queue
           = queue ++ dropped_medias toURI symLinkTargetUrl (urls mime)
             ++ dropped_text toURI isValidUrlText mime)
    by (cbn [playlist_after]; apply playlist_after_enqueue_dropped).
  split; [| split].
  - intros Hoffered Hinput url Hurl.
    destruct (Z.eqb_spec offered 0) as [Hz | _]; [contradiction |].
    rewrite Hurl, Hinput. split; [reflexivity |]. split.
    + intros Hok. rewrite Hok. reflexivity.
    + intros Hrej Hvalid Hmrl.
      destruct (Z.eqb_spec (AddAssociatedMedia (toString url)) 0)
        as [Hz | _]; [contradiction |].
      cbn [playlist_after]. rewrite playlist_after_enqueue_dropped.
      fold mime. rewrite Hurl. cbn [dropped_medias]. fold mrl_of.
      rewrite Hvalid, (nonempty_length _ Hmrl). reflexivity.
  - intros Hoffered Hinput.
    destruct (Z.eqb_spec offered 0) as [Hz | _]; [contradiction |].
    rewrite Hinput.
    assert (Hcalls :
      playlist_after
        (setDropAction CopyAction ::
         match urls mime with
         | [_] | _ =>
             enqueue_dropped toURI isValidUrlText symLinkTargetUrl event
               b_play
         end) queue
      = queue ++ dropped_medias toURI symLinkTargetUrl (urls mime)
        ++ dropped_text toURI isValidUrlText mime)
      by (destruct (urls mime) as [| u [| u' l]]; exact Hq).
    split; [exact Hcalls |].
    intros url Hin Hvalid Hmrl. rewrite Hcalls.
    apply in_or_app. right. apply in_or_app. left.
    now apply In_dropped_medias.
  - intros Hz. now rewrite Hz.
Qed.

End DropEvents.

(** The examples of the specification: a subtitle dropped on active media
    is attached and leaves the queue alone; a movie dropped with no active
    media is enqueued; a movie dropped on active media is rejected as a
    subtitle and then enqueued. *)
Lemma dropEventPlay_subtitle_first_witness :
  let drop hasInput url :=
    dropEventPlay Sample.toURI_id Sample.any_text_valid Sample.no_symlink
      hasInput Sample.attach_srt_only (Sample.drop_of url) true in
  playlist_after (drop true Sample.url_sub) [] = [] /\
  playlist_after (drop false Sample.url_movie) []
  = [mkMedia "file:///movie.mp4" EmptyString] /\
  playlist_after (drop true Sample.url_movie) []
  = [mkMedia "file:///movie.mp4" EmptyString].
Proof.
  intros drop.
  pose proof (fun hasInput url =>
    dropEventPlay_subtitle_first Sample.toURI_id Sample.any_text_valid
      Sample.no_symlink Sample.attach_srt_only hasInput (Sample.drop_of url)
      true []) as H.
  cbv zeta in H.
  split; [| split].
  - destruct (H true Sample.url_sub) as (Ha & _).
    destruct (Ha ltac:(discriminate) eq_refl Sample.url_sub eq_refl)
      as (_ & Hok & _).
    exact (Hok eq_refl).
  - destruct (H false Sample.url_movie) as (_ & Hb & _).
    destruct (Hb ltac:(discriminate) eq_refl) as (Hq & _).
    exact Hq.
  - destruct (H true Sample.url_movie) as (Ha & _).
    destruct (Ha ltac:(discriminate) eq_refl Sample.url_movie eq_refl)
      as (_ & _ & Hrej).
    exact (Hrej ltac:(discriminate) eq_refl ltac:(discriminate)).
Defined.

Section DropEventPlay.

(** C3, as stated, fails: a drop whose source offers none of the copy, move
    and link actions is ignored.  With no active media its valid locator is
    not appended to the queue, and with active media no attachment is
    attempted. *)
Lemma drop_without_action_ignored :
  isValid Sample.url_movie = true /\
  playlist_after
    (dropEventPlay Sample.toURI_id Sample.any_text_valid Sample.no_symlink
       false Sample.attach_srt_only
       (Sample.drop_without_action Sample.url_movie) true) []
  = [] /\
  dropEventPlay Sample.toURI_id Sample.any_text_valid Sample.no_symlink
    true Sample.attach_srt_only
    (Sample.drop_without_action Sample.url_sub) true
  = [].
Proof. repeat split. Qed.

End DropEventPlay.

(** ** Module initialization *)

(** Reduces the projections of updated states and windows, and nothing
    else. *)
Ltac state_simpl :=
  cbn [fst snd
       wnd_ops wnd_sys wnd_type sys_windowController sys_delegate delegate
       window mainQueue reported messages eventQueue_deadlock
       set_wnd_ops set_wnd_sys set_wnd_type set_sys_windowController
       set_sys_delegate set_delegate set_window set_mainQueue set_reported
       set_messages set_eventQueue_deadlock
       styleMask contentSize backingScaleFactor isVisible isKeyWindow title
       toggleFullScreen_calls
       set_styleMask set_contentSize set_backingScaleFactor set_isVisible
       set_isKeyWindow set_title set_toggleFullScreen_calls] in *.

Section ModuleOpen.

(** C8, as stated, fails in its second half: with an [NSApplication]
    present, [Open] still fails, with [VLC_ENOMEM], when an allocation
    fails. *)
Lemma Open_out_of_memory :
  NSApp Sample.host_out_of_memory = true /\
  fst (Open Sample.host_out_of_memory initial_state) = VLC_ENOMEM /\
  wnd_ops (snd (Open Sample.host_out_of_memory initial_state)) = false.
Proof. repeat split. Qed.

(** Draining the main queue touches neither the engine window fields nor
    the references and objects of the module other than the window. *)
Lemma run_main_block_frame (block : MainBlock) (st : State) :
  let st' := run_main_block block st in
  wnd_ops st' = wnd_ops st /\ wnd_sys st' = wnd_sys st /\
  wnd_type st' = wnd_type st /\
  sys_windowController st' = sys_windowController st /\
  sys_delegate st' = sys_delegate st /\
  messages st' = messages st /\ reported st' = reported st /\
  mainQueue st' = mainQueue st.
Proof.
  destruct block; cbn [run_main_block]; unfold to_weakWc;
    destruct (sys_windowController st) eqn:Hwc; try (now rewrite ?Hwc);
    unfold showWindowWithConfig, setWindowDecorated, setWindowFullscreen,
      toggleFullScreen, on_window, to_moduleDelegate, isWindowFullscreen;
    repeat match goal with
           | |- context [match ?x with _ => _ end] =>
               destruct x eqn:?; cbn in *
           end; now rewrite ?Hwc.
Qed.

Lemma fold_main_blocks_frame (blocks : list MainBlock) (st : State) :
  let st' := fold_left (fun st block => run_main_block block st) blocks st in
  wnd_ops st' = wnd_ops st /\ wnd_sys st' = wnd_sys st /\
  wnd_type st' = wnd_type st /\
  sys_windowController st' = sys_windowController st /\
  sys_delegate st' = sys_delegate st /\
  messages st' = messages st /\ reported st' = reported st /\
  mainQueue st' = mainQueue st.
Proof.
  revert st. induction blocks as [| block blocks IH]; intros st; cbn.
  - repeat split.
  - destruct (IH (run_main_block block st))
      as (H1 & H2 & H3 & H4 & H5 & H6 & H7 & H8).
    destruct (run_main_block_frame block st)
      as (G1 & G2 & G3 & G4 & G5 & G6 & G7 & G8).
    cbv zeta in *.
    rewrite H1, H2, H3, H4, H5, H6, H7, H8. repeat split; assumption.
Qed.

Lemma drain_main_frame (st : State) :
  let st' := drain_main st in
  wnd_ops st' = wnd_ops st /\ wnd_sys st' = wnd_sys st /\
  wnd_type st' = wnd_type st /\
  sys_windowController st' = sys_windowController st /\
  sys_delegate st' = sys_delegate st /\
  messages st' = messages st /\ reported st' = reported st /\
  mainQueue st' = [].
Proof.
  unfold drain_main.
  destruct (fold_main_blocks_frame (mainQueue st) (set_mainQueue [] st))
    as (H1 & H2 & H3 & H4 & H5 & H6 & H7 & H8).
  cbv zeta in *. rewrite H1, H2, H3, H4, H5, H6, H7, H8.
  repeat split.
Qed.

(** A block of the main queue leaves the delegate in place when there is
    one, and leaves none when there is none. *)
Lemma run_main_block_delegate (block : MainBlock) (st : State) :
  (delegate st = None -> delegate (run_main_block block st) = None) /\
  (delegate st <> None -> delegate (run_main_block block st) <> None).
Proof.
  destruct block; cbn [run_main_block]; unfold to_weakWc;
    destruct (sys_windowController st); try (split; intros H; exact H);
    unfold showWindowWithConfig, setWindowDecorated, setWindowFullscreen,
      toggleFullScreen, on_window, to_moduleDelegate, isWindowFullscreen;
    repeat match goal with
           | |- context [match ?x with _ => _ end] =>
               destruct x eqn:?; cbn in *
           end; split; intros H; cbn; congruence.
Qed.

Lemma fold_main_blocks_delegate (blocks : list MainBlock) (st : State) :
  let st' := fold_left (fun st block => run_main_block block st) blocks st in
  (delegate st = None -> delegate st' = None) /\
  (delegate st <> None -> delegate st' <> None).
Proof.
  revert st. induction blocks as [| block blocks IH]; intros st; cbn.
  - split; auto.
  - destruct (IH (run_main_block block st)) as (H1 & H2).
    destruct (run_main_block_delegate block st) as (G1 & G2).
    split; auto.
Qed.

(** C8, amended: without an [NSApplication], [Open] returns the generic
    failure code and initializes nothing: no delegate, window or controller
    is created and neither the operations table nor [sys] is installed.
    With one, [Open] returns success with the operations table installed,
    the delegate and the window controller created, when the three
    allocations succeed; when one fails it returns [VLC_ENOMEM] and
    installs nothing. *)
Theorem Open_result (host : Host) (st : State) :
  let status := fst (Open host st) in
  let st' := snd (Open host st) in
  let allocated :=
    vlc_obj_calloc_ok host && delegate_alloc_ok host
    && controller_init_ok host && view_alloc_ok host in
  (NSApp host = false ->
   status = VLC_EGENERIC /\
   delegate st' = delegate st /\ window st' = window st /\
   sys_delegate st' = sys_delegate st /\
   sys_windowController st' = sys_windowController st /\
   wnd_ops st' = wnd_ops st /\ wnd_sys st' = wnd_sys st /\
   wnd_type st' = wnd_type st) /\
  (NSApp host = true -> allocated = true ->
   status = VLC_SUCCESS /\
   wnd_ops st' = true /\ wnd_sys st' = true /\
   wnd_type st' = VOUT_WINDOW_TYPE_NSOBJECT /\
   sys_delegate st' = true /\ sys_windowController st' = true /\
   delegate st' <> None /\ window st' <> None) /\
  (NSApp host = true -> allocated = false ->
   status = VLC_ENOMEM /\
   wnd_ops st' = wnd_ops st /\ wnd_sys st' = wnd_sys st /\
   sys_windowController st' = sys_windowController st).
Proof.
  intros status st' allocated. subst status st' allocated. unfold Open.
  destruct (NSApp host); cbn [negb].
  2: { split; [intros _; repeat split | split; discriminate]. }
  split; [discriminate |].
  destruct (vlc_obj_calloc_ok host); cbn [negb andb].
  2: { split; [discriminate | intros _ _; repeat split]. }
  destruct (delegate_alloc_ok host); cbn [negb andb].
  2: { split; [discriminate | intros _ _; repeat split]. }
  set (st1 := set_sys_delegate true
                (set_delegate (Some [])
                   (set_messages (messages st ++ [msg_Info_using_module])
                      st))).
  destruct (drain_main_frame st1) as (H1 & H2 & H3 & H4 & H5 & H6 & H7 & H8).
  destruct (fold_main_blocks_delegate (mainQueue st1) (set_mainQueue [] st1))
    as (_ & Hd).
  fold (drain_main st1) in Hd. cbv zeta in *.
  unfold initWithModuleDelegate.
  destruct (controller_init_ok host); cbn [negb andb].
  2: { split; [discriminate | intros _ _]. state_simpl.
       rewrite H1, H2, H4. repeat split. }
  destruct (view_alloc_ok host); cbn [negb andb].
  2: { split; [discriminate | intros _ _]. state_simpl.
       rewrite H1, H2, H4. repeat split. }
  split; [intros _ _ | discriminate]. state_simpl.
  rewrite H5. repeat split; try discriminate.
  apply Hd. discriminate.
Qed.

Lemma Open_result_witness :
  fst (Open Sample.host_without_app initial_state) = VLC_EGENERIC /\
  delegate (snd (Open Sample.host_without_app initial_state)) = None /\
  wnd_ops (snd (Open Sample.host_without_app initial_state)) = false /\
  fst (Open Sample.host initial_state) = VLC_SUCCESS /\
  wnd_ops Sample.opened = true /\
  fst (Open Sample.host_out_of_memory initial_state) = VLC_ENOMEM.
Proof.
  destruct (Open_result Sample.host_without_app initial_state)
    as (Hno & _ & _).
  destruct (Hno eq_refl) as (E1 & E2 & _ & _ & _ & E3 & _).
  destruct (Open_result Sample.host initial_state) as (_ & Hok & _).
  destruct (Hok eq_refl eq_refl) as (S1 & S2 & _).
  destruct (Open_result Sample.host_out_of_memory initial_state)
    as (_ & _ & Hmem).
  destruct (Hmem eq_refl eq_refl) as (M1 & _).
  exact (conj E1 (conj E2 (conj E3 (conj S1 (conj S2 M1))))).
Defined.

End ModuleOpen.

(** ** Requests served on the main queue *)
Section MainQueue.

(** A block of the main queue neither removes the window nor moves it to
    another screen. *)
Lemma run_main_block_window (block : MainBlock) (st : State) (w : NSWindow) :
  window st = Some w ->
  exists w', window (run_main_block block st) = Some w' /\
             backingScaleFactor w' = backingScaleFactor w.
Proof.
  intros Hw.
  destruct block; cbn [run_main_block]; unfold to_weakWc;
    destruct (sys_windowController st); eauto;
    unfold showWindowWithConfig, setWindowDecorated, setWindowFullscreen,
      toggleFullScreen, on_window, to_moduleDelegate, isWindowFullscreen;
    rewrite ?Hw; state_simpl;
    repeat match goal with
           | |- context [match ?x with _ => _ end] =>
               destruct x eqn:?; state_simpl
           end; rewrite ?Hw; eauto.
Qed.

Lemma fold_main_blocks_window (blocks : list MainBlock) (st : State)
    (w : NSWindow) :
  window st = Some w ->
  exists w',
    window (fold_left (fun st block => run_main_block block st) blocks st)
    = Some w' /\
    backingScaleFactor w' = backingScaleFactor w.
Proof.
  revert st w. induction blocks as [| block blocks IH]; intros st w Hw; cbn.
  - eauto.
  - destruct (run_main_block_window block st w Hw) as (w1 & Hw1 & Hs1).
    destruct (IH _ _ Hw1) as (w2 & Hw2 & Hs2).
    exists w2. split; [assumption | congruence].
Qed.

(** A request made while the main queue is idle is the next block the main
    thread serves. *)
Lemma request_served (block : MainBlock) (st : State) :
  mainQueue st = [] ->
  drain_main (dispatch_async_main block st) = run_main_block block st /\
  dispatch_sync_main block st = run_main_block block st.
Proof.
  intros Hq. unfold dispatch_sync_main, drain_main, dispatch_async_main.
  rewrite Hq. state_simpl. cbn [app fold_left].
  destruct st; cbn in Hq; subst; split; reflexivity.
Qed.

(** C9: an enable request is synchronous and always succeeds.  When
    [WindowEnable] returns, on a module that is open, no block is left
    pending on the main queue (the requests made earlier were served
    first), and the window has the content size of the configuration
    converted from backing to window coordinates, the style mask of the
    requested decoration, and is shown and key. *)
Theorem WindowEnable_synchronous (cfg : vout_window_cfg_t) (st : State)
    (w : NSWindow) :
  sys_windowController st = true ->
  window st = Some w ->
  let status := fst (WindowEnable cfg st) in
  let st' := snd (WindowEnable cfg st) in
  status = VLC_SUCCESS /\
  mainQueue st' = [] /\
  exists w',
    window st' = Some w' /\
    isVisible w' = true /\ isKeyWindow w' = true /\
    styleMask w'
    = (if is_decorated cfg then decoratedWindowStyleMask
       else undecoratedWindowStyleMask) /\
    contentSize w'
    = convertSizeFromBacking w
        (NSMakeSize (inject_Z (cfg_width cfg)) (inject_Z (cfg_height cfg))).
Proof.
  intros Hwc Hw status st'. subst status st'.
  unfold WindowEnable, dispatch_sync_main. cbn [fst snd run_main_block].
  destruct (drain_main_frame st) as (_ & _ & _ & Hwc' & _ & _ & _ & Hq).
  cbv zeta in Hwc', Hq.
  assert (Hw' : exists w1, window (drain_main st) = Some w1 /\
                           backingScaleFactor w1 = backingScaleFactor w).
  { unfold drain_main.
    apply (fold_main_blocks_window _ (set_mainQueue [] st) w). exact Hw. }
  destruct Hw' as (w1 & Hw1 & Hs1).
  unfold to_weakWc. rewrite Hwc', Hwc.
  unfold showWindowWithConfig, setWindowDecorated, on_window.
  rewrite Hw1. state_simpl.
  split; [reflexivity |]. split; [exact Hq |].
  eexists. split; [reflexivity |]. state_simpl.
  split; [reflexivity |]. split; [reflexivity |]. split.
  - destruct (is_decorated cfg); reflexivity.
  - unfold convertSizeFromBacking. now rewrite Hs1.
Qed.

Lemma WindowEnable_synchronous_witness :
  fst (WindowEnable Sample.cfg_720p
         (WindowResize 640 480 (WindowDisable Sample.opened)))
  = VLC_SUCCESS /\
  mainQueue
    (snd (WindowEnable Sample.cfg_720p
            (WindowResize 640 480 (WindowDisable Sample.opened))))
  = [].
Proof.
  destruct (WindowEnable_synchronous Sample.cfg_720p
              (WindowResize 640 480 (WindowDisable Sample.opened))
              Sample.fresh_window eq_refl eq_refl) as (Hs & Hq & _).
  exact (conj Hs Hq).
Defined.

End MainQueue.

(** ** Fullscreen requests *)
Section Fullscreen.

(** C2: a fullscreen request of the engine (set or unset), served by the
    window controller.  When the requested state is the one the window is
    in, the controller only reports that state ([reportFullscreen] when
    fullscreen, [reportWindowed] when windowed): the report block joins the
    event queue and the window receives no [toggleFullScreen:].  When the
    two differ, the window receives exactly one [toggleFullScreen:] and
    nothing is reported: the event queue and what the engine received are
    as before.  The report then comes from [windowDidEnterFullScreen:] and
    [windowDidExitFullScreen:]. *)
Theorem setWindowFullscreen_reconciles (fullscreen : bool) (st : State)
    (w : NSWindow) (pending : list EventBlock) :
  sys_windowController st = true ->
  window st = Some w ->
  delegate st = Some pending ->
  mainQueue st = [] ->
  let request :=
    if fullscreen then WindowSetFullscreen else WindowUnsetFullscreen in
  let st' := drain_main (request st) in
  (fullscreen = isWindowFullscreen st ->
   delegate st'
   = Some (pending ++ [if fullscreen then block_reportFullscreen
                       else block_reportWindowed]) /\
   window st' = Some w) /\
  (fullscreen <> isWindowFullscreen st ->
   window st'
   = Some (set_toggleFullScreen_calls (S (toggleFullScreen_calls w)) w) /\
   delegate st' = Some pending) /\
  reported st' = reported st /\
  delegate (windowDidEnterFullScreen st)
  = Some (pending ++ [block_reportFullscreen]) /\
  delegate (windowDidExitFullScreen st)
  = Some (pending ++ [block_reportWindowed]).
Proof.
  intros Hwc Hw Hd Hq request st'.
  assert (Hst' : st' = run_main_block (block_setWindowFullscreen fullscreen)
                         st).
  { subst st' request. unfold WindowSetFullscreen, WindowUnsetFullscreen.
    destruct fullscreen; now apply request_served. }
  rewrite Hst'. clear Hst' st' request. cbn [run_main_block].
  unfold to_weakWc. rewrite Hwc. unfold setWindowFullscreen.
  split; [| split; [| split; [| split]]].
  - intros <-. rewrite Bool.eqb_reflx.
    unfold to_moduleDelegate, reportFullscreen, reportWindowed,
      enqueueEventBlock.
    rewrite Hd. destruct fullscreen; state_simpl; split; auto.
  - intros Hne. rewrite (proj2 (Bool.eqb_false_iff _ _) Hne).
    unfold toggleFullScreen, on_window. rewrite Hw. state_simpl.
    split; auto.
  - destruct (Bool.eqb fullscreen (isWindowFullscreen st)).
    + unfold to_moduleDelegate. rewrite Hd.
      destruct fullscreen; reflexivity.
    + unfold toggleFullScreen, on_window. rewrite Hw. reflexivity.
  - unfold windowDidEnterFullScreen, to_moduleDelegate. now rewrite Hd.
  - unfold windowDidExitFullScreen, to_moduleDelegate. now rewrite Hd.
Qed.

Lemma setWindowFullscreen_reconciles_witness :
  delegate (drain_main (WindowUnsetFullscreen Sample.opened))
  = Some [block_reportWindowed] /\
  delegate (drain_main (WindowSetFullscreen Sample.opened_fullscreen))
  = Some [block_reportFullscreen] /\
  window (drain_main (WindowSetFullscreen Sample.opened))
  = Some (set_toggleFullScreen_calls 1 Sample.fresh_window) /\
  delegate (drain_main (WindowSetFullscreen Sample.opened)) = Some [].
Proof.
  destruct (setWindowFullscreen_reconciles false Sample.opened
              Sample.fresh_window [] eq_refl eq_refl eq_refl eq_refl)
    as (Hsame & _).
  destruct (setWindowFullscreen_reconciles true Sample.opened_fullscreen
              (set_styleMask
                 (Z.lor decoratedWindowStyleMask NSFullScreenWindowMask)
                 Sample.fresh_window)
              [] eq_refl eq_refl eq_refl eq_refl)
    as (Hsame' & _).
  destruct (setWindowFullscreen_reconciles true Sample.opened
              Sample.fresh_window [] eq_refl eq_refl eq_refl eq_refl)
    as (_ & Hdiff & _).
  destruct (Hdiff ltac:(discriminate)) as (Htoggle & Hquiet).
  exact (conj (proj1 (Hsame eq_refl))
           (conj (proj1 (Hsame' eq_refl)) (conj Htoggle Hquiet))).
Defined.

End Fullscreen.

(** ** Sizes cross the boundary in backing units *)
Section BackingSize.

(** Scaling a pixel count down to points and back up gives the pixel
    count back, and the cast to [unsigned int] keeps a count that fits. *)
Lemma backing_of_points (s : positive) (x : Z) :
  ((inject_Z x / inject_Z (Zpos s)) * inject_Z (Zpos s) == inject_Z x)%Q.
Proof.
  unfold Qeq, Qdiv, Qinv, Qmult, inject_Z. cbn [Qnum Qden].
  rewrite Pos.mul_1_l, Pos.mul_1_r, !Z.mul_1_r. reflexivity.
Qed.

Lemma backing_roundtrip (s : positive) (x : Z) :
  0 <= x < 2 ^ 32 ->
  unsigned_of_CGFloat
    ((inject_Z x / inject_Z (Zpos s)) * inject_Z (Zpos s))%Q
  = x.
Proof.
  intros Hx. unfold unsigned_of_CGFloat, Qdiv, Qinv, Qmult, inject_Z.
  cbn [Qnum Qden]. rewrite Pos.mul_1_l, Pos.mul_1_r, Z.mul_1_r.
  rewrite Z.quot_mul by discriminate. now apply Z.mod_small.
Qed.

(** A pixel count that is a multiple of the scale factor is a whole number
    of points. *)
Lemma points_of_aligned (s : positive) (x : Z) :
  (Zpos s | x) ->
  (inject_Z x / inject_Z (Zpos s) == inject_Z (x / Zpos s))%Q.
Proof.
  intros (k & ->). rewrite Z.div_mul by discriminate.
  unfold Qeq, Qdiv, Qinv, Qmult, inject_Z. cbn [Qnum Qden].
  rewrite Pos.mul_1_l, !Z.mul_1_r. reflexivity.
Qed.

(** The event queue hands its pending blocks to the engine in order. *)
Lemma eventQueue_run_reports (pending : list EventBlock) (st : State) :
  delegate st = Some pending ->
  reported (eventQueue_run (length pending) st)
  = reported st ++ map run_event_block pending.
Proof.
  revert st. induction pending as [| block rest IH]; intros st Hd.
  - cbn. now rewrite app_nil_r.
  - cbn [length eventQueue_run map]. unfold eventQueue_step. rewrite Hd.
    state_simpl. destruct rest as [| block' rest'].
    + cbn. destruct (sys_delegate st); unfold dealloc_on_eventQueue;
        state_simpl; cbn; rewrite ?app_nil_r; reflexivity.
    + rewrite IH by reflexivity. state_simpl.
      now rewrite <- app_assoc.
Qed.

(** What the engine receives once the content view reported its size and
    the event queue ran. *)
Lemma reportBackingSize_delivered (st : State) (w : NSWindow)
    (pending : list EventBlock) :
  window st = Some w ->
  delegate st = Some pending ->
  reported
    (eventQueue_run (S (length pending)) (resizeSubviewsWithOldSize st))
  = reported st ++ map run_event_block pending
    ++ [run_event_block
          (block_reportSizeChanged
             (convertSizeToBacking w (contentSize w)))].
Proof.
  intros Hw Hd.
  unfold resizeSubviewsWithOldSize, reportBackingSize, to_moduleDelegate,
    reportSizeChanged, enqueueEventBlock.
  rewrite Hw, Hd.
  replace (S (length pending))
    with (length (pending ++ [block_reportSizeChanged
                    (convertSizeToBacking w (contentSize w))]))
    by (rewrite length_app; cbn; lia).
  rewrite eventQueue_run_reports by reflexivity.
  state_simpl. now rewrite map_app.
Qed.

Lemma report_of_converted_size (w w' : NSWindow) (width height : Z) :
  0 <= width < 2 ^ 32 -> 0 <= height < 2 ^ 32 ->
  backingScaleFactor w' = backingScaleFactor w ->
  contentSize w'
  = convertSizeFromBacking w
      (NSMakeSize (inject_Z width) (inject_Z height)) ->
  run_event_block
    (block_reportSizeChanged (convertSizeToBacking w' (contentSize w')))
  = vout_window_ReportSize width height.
Proof.
  intros Hwidth Hheight Hs Hc. rewrite Hc.
  unfold convertSizeToBacking, convertSizeFromBacking. rewrite Hs.
  cbn [run_event_block MacOSX.width MacOSX.height].
  now rewrite !backing_roundtrip.
Qed.

(** What a window holds, and what its view reports, once its content size
    was set to a backing size converted to window coordinates. *)
Lemma converted_size_crosses (st : State) (w w' : NSWindow)
    (pending : list EventBlock) (width height : Z) :
  window st = Some w' ->
  delegate st = Some pending ->
  0 <= width < 2 ^ 32 -> 0 <= height < 2 ^ 32 ->
  (Zpos (backingScaleFactor w) | width) ->
  (Zpos (backingScaleFactor w) | height) ->
  backingScaleFactor w' = backingScaleFactor w ->
  contentSize w'
  = convertSizeFromBacking w
      (NSMakeSize (inject_Z width) (inject_Z height)) ->
  NSEqualSizes (contentSize w')
    (NSMakeSize (inject_Z (width / Zpos (backingScaleFactor w)))
       (inject_Z (height / Zpos (backingScaleFactor w)))) /\
  (exists newSize,
     delegate (resizeSubviewsWithOldSize st)
     = Some (pending ++ [block_reportSizeChanged newSize]) /\
     NSEqualSizes newSize
       (NSMakeSize (inject_Z width) (inject_Z height))) /\
  reported
    (eventQueue_run (S (length pending)) (resizeSubviewsWithOldSize st))
  = reported st ++ map run_event_block pending
    ++ [vout_window_ReportSize width height].
Proof.
  intros Hw Hd Hwidth Hheight Hdw Hdh Hs Hc.
  split; [| split].
  - rewrite Hc. unfold NSEqualSizes, convertSizeFromBacking.
    cbn [MacOSX.width MacOSX.height].
    split; now apply points_of_aligned.
  - unfold resizeSubviewsWithOldSize, reportBackingSize, to_moduleDelegate,
      reportSizeChanged, enqueueEventBlock.
    rewrite Hw, Hd. state_simpl. eexists. split; [reflexivity |].
    rewrite Hc. unfold NSEqualSizes, convertSizeToBacking,
      convertSizeFromBacking.
    cbn [MacOSX.width MacOSX.height]. rewrite Hs.
    split; apply backing_of_points.
  - rewrite (reportBackingSize_delivered st w' pending Hw Hd).
    now rewrite (report_of_converted_size w w' width height).
Qed.

(** C6: sizes cross the boundary between the module and the engine in
    backing (pixel) units, and the two conversions undo each other.  For a
    width and a height that fit [unsigned int] and are multiples of the
    backing scale factor of the window: once a resize request for
    [(width, height)] is served, or the window is shown with a
    configuration of that size, the window holds the size in points, the
    whole numbers [width / scale] and [height / scale]; the size its
    content view then hands to the delegate is [(width, height)] again,
    in pixels; and [(width, height)] is what the engine receives, after the
    reports pending before it. *)
Theorem resize_then_report_roundtrip (width height : Z) (decorated : bool)
    (st : State) (w : NSWindow) (pending : list EventBlock) :
  sys_windowController st = true ->
  window st = Some w ->
  delegate st = Some pending ->
  mainQueue st = [] ->
  0 <= width < 2 ^ 32 -> 0 <= height < 2 ^ 32 ->
  (Zpos (backingScaleFactor w) | width) ->
  (Zpos (backingScaleFactor w) | height) ->
  let scale := Zpos (backingScaleFactor w) in
  let points :=
    NSMakeSize (inject_Z (width / scale)) (inject_Z (height / scale)) in
  let pixels := NSMakeSize (inject_Z width) (inject_Z height) in
  let crosses served :=
    (exists w',
       window served = Some w' /\
       backingScaleFactor w' = backingScaleFactor w /\
       NSEqualSizes (contentSize w') points) /\
    (exists newSize,
       delegate (resizeSubviewsWithOldSize served)
       = Some (pending ++ [block_reportSizeChanged newSize]) /\
       NSEqualSizes newSize pixels) /\
    reported
      (eventQueue_run (S (length pending))
         (resizeSubviewsWithOldSize served))
    = reported st ++ map run_event_block pending
      ++ [vout_window_ReportSize width height] in
  crosses (drain_main (WindowResize width height st)) /\
  crosses (snd (WindowEnable (mk_cfg width height decorated) st)).
Proof.
  intros Hwc Hw Hd Hq Hwidth Hheight Hdw Hdh scale points pixels crosses.
  subst crosses points pixels scale. cbv beta.
  unfold WindowResize, WindowEnable. cbn [snd].
  rewrite (proj1 (request_served _ st Hq)), (proj2 (request_served _ st Hq)).
  cbn [run_main_block]. unfold to_weakWc. rewrite Hwc.
  unfold showWindowWithConfig, setWindowDecorated, on_window.
  rewrite Hw. state_simpl. cbn [cfg_width cfg_height is_decorated].
  split.
  all: match goal with
       | |- context [resizeSubviewsWithOldSize
                       (set_window (Some ?win) ?served)] =>
           destruct (converted_size_crosses (set_window (Some win) served)
                       w win pending width height eq_refl Hd Hwidth Hheight
                       Hdw Hdh eq_refl eq_refl)
             as (Hpoints & Hview & Hreport)
       end.
  all: split; [| split; [exact Hview | exact Hreport]].
  all: eexists; split; [reflexivity |]; split;
    [reflexivity | exact Hpoints].
Qed.

(** On a screen of scale factor 2, a request for 1280 by 720 pixels leaves
    a window of 640 by 360 points, and the engine is told 1280 by 720. *)
Lemma resize_then_report_roundtrip_witness :
  (exists w',
     window (drain_main (WindowResize 1280 720 Sample.opened)) = Some w' /\
     backingScaleFactor w' = 2%positive /\
     NSEqualSizes (contentSize w') (NSMakeSize 640 360)) /\
  reported
    (eventQueue_run 1
       (resizeSubviewsWithOldSize
          (drain_main (WindowResize 1280 720 Sample.opened))))
  = [vout_window_ReportSize 1280 720].
Proof.
  assert (H1 : 0 <= 1280 < 2 ^ 32) by lia.
  assert (H2 : 0 <= 720 < 2 ^ 32) by lia.
  assert (H3 : (Zpos (backingScaleFactor Sample.fresh_window) | 1280))
    by (exists 640; reflexivity).
  assert (H4 : (Zpos (backingScaleFactor Sample.fresh_window) | 720))
    by (exists 360; reflexivity).
  destruct (resize_then_report_roundtrip 1280 720 true Sample.opened
              Sample.fresh_window [] eq_refl eq_refl eq_refl eq_refl
              H1 H2 H3 H4) as ((Hpoints & _ & Hreport) & _).
  exact (conj Hpoints Hreport).
Defined.

End BackingSize.

(** ** Teardown *)
Section Teardown.

(** [Close] reaches teardown at once when no report block is pending, and
    the event queue is left as it was. *)
Lemma Close_torn_down (st : State) :
  delegate st = Some [] \/ delegate st = None ->
  torn_down (Close st) /\ reported (Close st) = reported st /\
  eventQueue_deadlock (Close st) = eventQueue_deadlock st.
Proof.
  unfold Close, torn_down, dealloc. state_simpl.
  intros [Hd | Hd]; rewrite Hd; state_simpl; cbn [map];
    rewrite ?app_nil_r; repeat split; assumption.
Qed.


(** Once the module dropped its references and the delegate is gone, every
    later report call, whether sent directly through a weak reference to the
    delegate or by a callback of the window or of its content view, does
    nothing, and so does every turn of the event queue and every block
    still served on the main queue. *)
Lemma reports_after_teardown_dropped (st : State) (calls : list LateCall) :
  torn_down st ->
  fold_left (fun st call => late_call call st) calls st = st /\
  reported (fold_left (fun st call => late_call call st) calls st)
  = reported st /\
  forall block, run_main_block block st = st.
Proof.
  intros (Hwc & Hs & Hd).
  assert (Hone : forall call, late_call call st = st).
  { intros call.
    destruct call; cbn [late_call]; unfold windowShouldClose,
      windowDidEnterFullScreen, windowDidExitFullScreen,
      resizeSubviewsWithOldSize, viewDidChangeBackingProperties,
      reportBackingSize, eventQueue_step, to_moduleDelegate;
      cbn [snd]; rewrite ?Hd; try reflexivity.
    all: destruct (window st); reflexivity. }
  assert (Hall : fold_left (fun st call => late_call call st) calls st = st).
  { induction calls as [| call calls IH]; [reflexivity |].
    cbn [fold_left]. now rewrite Hone. }
  rewrite Hall. repeat split.
  intros block. destruct block; cbn [run_main_block]; unfold to_weakWc;
    now rewrite Hwc.
Qed.

(** When no report is pending at [Close], the delegate is invalidated at
    once and every later report is dropped. *)
Lemma idle_Close_drops_later_reports (st : State) (calls : list LateCall) :
  delegate st = Some [] \/ delegate st = None ->
  fold_left (fun st call => late_call call st) calls (Close st) = Close st /\
  reported (fold_left (fun st call => late_call call st) calls (Close st))
  = reported st /\
  eventQueue_deadlock (Close st) = eventQueue_deadlock st.
Proof.
  intros Hd. destruct (Close_torn_down st Hd) as (Ht & Hr & Hdl).
  destruct (reports_after_teardown_dropped (Close st) calls Ht)
    as (Hall & _ & _).
  rewrite Hall. repeat split; assumption.
Qed.

(** C7: the code does not keep what the claim says when a report is
    pending at [Close].  On an opened module whose content view has just
    reported its size, the report block is still on the event queue when
    [Close] drops the two references of the module.  The block retains the
    delegate, so the delegate is still there, its engine window pointer
    set, and nothing was reported yet.  A callback of the content view
    after [Close] then enqueues a second report; the event queue hands both
    to the engine; and the release of the last block starts [dealloc] on
    the event queue, where its [dispatch_sync] never returns. *)
Theorem Close_with_report_pending :
  let pending :=
    resizeSubviewsWithOldSize
      (drain_main (WindowResize 1280 720 Sample.opened)) in
  let closed := Close pending in
  let later := late_call late_resizeSubviewsWithOldSize closed in
  sys_windowController closed = false /\
  sys_delegate closed = false /\
  reported closed = [] /\
  (exists block, delegate closed = Some [block]) /\
  (exists block block', delegate later = Some [block; block']) /\
  reported (eventQueue_run 2 later)
  = [vout_window_ReportSize 1280 720; vout_window_ReportSize 1280 720] /\
  eventQueue_deadlock (eventQueue_run 2 later) = true.
Proof.
  cbv zeta.
  split; [reflexivity |]. split; [reflexivity |]. split; [reflexivity |].
  split; [eexists; reflexivity |].
  split; [do 2 eexists; reflexivity |].
  split; vm_compute; reflexivity.
Qed.

End Teardown.

(** * Further properties of the main context *)

Import QtMore.

(** ** What a settings load leaves and emits *)
Section LoadSettingsMore.

Local Open Scope method_scope.

Lemma signals_of_bind {A B : Type} (m : M A) (k : A -> M B) (c : MainCtx) :
  signals_of (bind m k c)
  = signals_of (m c) ++ signals_of (k (fst (fst (m c))) (ctx_of (m c))).
Proof.
  unfold bind, signals_of, ctx_of. destruct (m c) as [[a c1] s1].
  cbn [fst snd]. destruct (k a c1) as [[b c2] s2]. reflexivity.
Qed.

Lemma loadFromSettings_signals {T : Type} settings callSignals
    (conv : QVariant -> T) eqb member set name defaultValue signal c :
  (forall v c0, member (set v c0) = v) ->
  signals_of (loadFromSettings settings callSignals conv eqb member set
                name defaultValue signal c)
  = loaded_signal callSignals eqb
      (conv (QSettings_value settings name defaultValue)) (member c) signal.
Proof.
  intros Hset.
  unfold loadFromSettings, loaded_signal, bind, read, assign, emit, ret,
    signals_of.
  cbn [fst snd]. destruct (eqb _ (member c)); [reflexivity |].
  destruct callSignals; cbn; now rewrite ?Hset.
Qed.

Lemma colorScheme_step_signals (scheme : ColorScheme) (c : MainCtx) :
  signals_of ((current <- read m_colorScheme ;;
               if negb (current =? scheme) then setCurrentScheme scheme
               else ret tt) c)
  = if m_colorScheme c =? scheme then [] else [colorSchemeChanged scheme].
Proof.
  unfold bind, read, setCurrentScheme, assign, emit, ret, signals_of.
  cbn [fst snd]. destruct (m_colorScheme c =? scheme); reflexivity.
Qed.

(** The last step of [loadFromSettingsImpl], member by member. *)
Lemma scale_step_full (p_intf : qt_intf_t) (user : double) (c : MainCtx) :
  let r :=
    (current <- read m_intfUserScaleFactor ;;
     if Double.neqb current user then
       assign set_m_intfUserScaleFactor user ;;
       updateIntfScaleFactor p_intf
     else ret tt) c in
  let changed := Double.neqb (m_intfUserScaleFactor c) user in
  ctx_of r
  = (if changed then
       set_m_intfScaleFactor (intfScaleFactor_of p_intf user)
         (set_m_intfUserScaleFactor user c)
     else c) /\
  signals_of r = (if changed then [intfScaleFactorChanged] else []).
Proof.
  unfold bind, read, ctx_of, signals_of, intfScaleFactor_of. cbn [fst snd].
  destruct (Double.neqb (m_intfUserScaleFactor c) user); [| split; reflexivity].
  unfold updateIntfScaleFactor, bind, read, assign, emit, ret.
  destruct (logicalDotsPerInch p_intf); cbn; split; reflexivity.
Qed.

Lemma MainCtx_eq (c1 c2 : MainCtx) :
  b_playlistDocked c1 = b_playlistDocked c2 ->
  playlistVisible c1 = playlistVisible c2 ->
  playlistWidthFactor c1 = playlistWidthFactor c2 ->
  m_showRemainingTime c1 = m_showRemainingTime c2 ->
  m_gridView c1 = m_gridView c2 ->
  m_grouping c1 = m_grouping c2 ->
  b_interfaceOnTop c1 = b_interfaceOnTop c2 ->
  m_pinVideoControls c1 = m_pinVideoControls c2 ->
  m_hasAcrylicSurface c1 = m_hasAcrylicSurface c2 ->
  m_acrylicActive c1 = m_acrylicActive c2 ->
  m_preferHotkeys c1 = m_preferHotkeys c2 ->
  m_colorScheme c1 = m_colorScheme c2 ->
  m_intfUserScaleFactor c1 = m_intfUserScaleFactor c2 ->
  m_intfScaleFactor c1 = m_intfScaleFactor c2 ->
  c1 = c2.
Proof. destruct c1, c2; cbn; intros; subst; reflexivity. Qed.

(** Rewrites a member of a chain of [loaded_member] down to the member of
    the original context. *)
Ltac through_loaded_members :=
  repeat (first
    [ rewrite loaded_member_self by reflexivity
    | rewrite loaded_member_frame by reflexivity ]).

Lemma before_scale_step_ctx p_intf settings callSignals c :
  ctx_of (loadFromSettingsImpl p_intf settings callSignals c)
  = (if Double.neqb (m_intfUserScaleFactor c)
          (userIntfScaleFactor p_intf settings)
     then
       set_m_intfScaleFactor
         (intfScaleFactor_of p_intf (userIntfScaleFactor p_intf settings))
         (set_m_intfUserScaleFactor (userIntfScaleFactor p_intf settings)
            (before_scale_step settings c))
     else before_scale_step settings c).
Proof.
  unfold loadFromSettingsImpl.
  repeat (rewrite ctx_of_bind; rewrite loadFromSettings_ctx).
  rewrite ctx_of_bind, colorScheme_step_ctx.
  match goal with
  | |- ctx_of (_ ?x) = _ =>
      change x with (before_scale_step settings c);
      destruct (scale_step_full p_intf (userIntfScaleFactor p_intf settings)
                  (before_scale_step settings c)) as (Hctx & _)
  end.
  cbv zeta in Hctx. unfold userIntfScaleFactor in *. rewrite Hctx.
  replace (m_intfUserScaleFactor (before_scale_step settings c))
    with (m_intfUserScaleFactor c)
    by (unfold before_scale_step; now through_loaded_members).
  reflexivity.
Qed.

(** [loadFromSettingsImpl] as one assignment per member. *)
Lemma loadFromSettingsImpl_context p_intf settings callSignals c :
  ctx_of (loadFromSettingsImpl p_intf settings callSignals c)
  = loaded_context p_intf settings c.
Proof.
  rewrite before_scale_step_ctx.
  assert (Hsym : Double.eqb (userIntfScaleFactor p_intf settings)
                   (m_intfUserScaleFactor c)
                 = negb (Double.neqb (m_intfUserScaleFactor c)
                           (userIntfScaleFactor p_intf settings))).
  { unfold Double.neqb, Double.eqb. rewrite Bool.negb_involutive.
    apply SFeqb_sym. }
  apply MainCtx_eq; unfold loaded_context;
    cbn [b_playlistDocked playlistVisible playlistWidthFactor
         m_showRemainingTime m_gridView m_grouping b_interfaceOnTop
         m_pinVideoControls m_hasAcrylicSurface m_acrylicActive
         m_preferHotkeys m_colorScheme m_intfUserScaleFactor
         m_intfScaleFactor];
    try (unfold loaded_value at 1; rewrite Hsym);
    destruct (Double.neqb (m_intfUserScaleFactor c)
                (userIntfScaleFactor p_intf settings));
    cbn [negb
         b_playlistDocked playlistVisible playlistWidthFactor
         m_showRemainingTime m_gridView m_grouping b_interfaceOnTop
         m_pinVideoControls m_hasAcrylicSurface m_acrylicActive
         m_preferHotkeys m_colorScheme m_intfUserScaleFactor
         m_intfScaleFactor
         set_m_intfScaleFactor set_m_intfUserScaleFactor];
    unfold before_scale_step; now through_loaded_members.
Qed.

Lemma loadFromSettingsImpl_signals p_intf settings callSignals c :
  signals_of (loadFromSettingsImpl p_intf settings callSignals c)
  = loaded_signals p_intf settings callSignals c.
Proof.
  unfold loadFromSettingsImpl, loaded_signals.
  repeat (rewrite signals_of_bind;
          rewrite loadFromSettings_signals by reflexivity;
          rewrite loadFromSettings_ctx).
  rewrite signals_of_bind, colorScheme_step_signals, colorScheme_step_ctx.
  match goal with
  | |- context [signals_of (_ ?x)] =>
      change x with (before_scale_step settings c);
      destruct (scale_step_full p_intf (userIntfScaleFactor p_intf settings)
                  (before_scale_step settings c)) as (_ & Hsig)
  end.
  cbv zeta in Hsig. unfold userIntfScaleFactor in *. rewrite Hsig.
  replace (m_intfUserScaleFactor (before_scale_step settings c))
    with (m_intfUserScaleFactor c)
    by (unfold before_scale_step; now through_loaded_members).
  through_loaded_members. reflexivity.
Qed.

Lemma SFeqb_refl (x : double) : x <> S754_nan -> SFeqb x x = true.
Proof.
  intros Hx. unfold SFeqb.
  destruct x as [s | [|] | | [|] m e]; cbn [SFcompare];
    try reflexivity; try congruence;
    change (Pos.compare_cont Eq m m) with (Pos.compare m m);
    now rewrite Z.compare_refl, Pos.compare_refl.
Qed.

Lemma loaded_value_bool (v old : bool) : loaded_value Bool.eqb v old = v.
Proof. unfold loaded_value. now destruct v, old. Qed.

Lemma loaded_value_Z (v old : Z) : loaded_value Z.eqb v old = v.
Proof.
  unfold loaded_value. destruct (Z.eqb_spec v old); congruence.
Qed.

Lemma loaded_value_double (v old : double) :
  same_double (loaded_value Double.eqb v old) v.
Proof.
  unfold loaded_value, Double.eqb.
  destruct (SFeqb v old) eqn:E; [| now left].
  destruct v as [s | s | | s m e].
  - destruct old as [s' | s' | | s' m' e']; try discriminate.
    + right. eauto.
    + destruct s'; discriminate.
    + destruct s'; discriminate.
  - left. destruct old as [s' | s' | | s' m' e']; try discriminate;
      destruct s, s'; try discriminate; reflexivity.
  - discriminate.
  - left. now apply SFeqb_finite_eq in E.
Qed.

Lemma loaded_value_idem {T : Type} (eqb : T -> T -> bool) (v old : T) :
  loaded_value eqb v (loaded_value eqb v old) = loaded_value eqb v old.
Proof.
  unfold loaded_value. destruct (eqb v old) eqn:E.
  - now rewrite E.
  - now destruct (eqb v v).
Qed.

Lemma saved_values (c : MainCtx) (settings : gmap string QVariant)
    (d : QVariant) :
  let saved := save_states c settings in
  QSettings_value saved "MainWindow/pl-dock-status" d
  = QV_bool (b_playlistDocked c) /\
  QSettings_value saved "MainWindow/ShowRemainingTime" d
  = QV_bool (m_showRemainingTime c) /\
  QSettings_value saved "MainWindow/interface-scale" d
  = QV_double (m_intfUserScaleFactor c) /\
  QSettings_value saved "MainWindow/pin-video-controls" d
  = QV_bool (m_pinVideoControls c) /\
  QSettings_value saved "MainWindow/playlist-visible" d
  = QV_bool (playlistVisible c) /\
  QSettings_value saved "MainWindow/playlist-width-factor" d
  = QV_double (playlistWidthFactor c) /\
  QSettings_value saved "MainWindow/grid-view" d = QV_bool (m_gridView c) /\
  QSettings_value saved "MainWindow/grouping" d = QV_int (m_grouping c) /\
  QSettings_value saved "MainWindow/color-scheme" d
  = QV_int (m_colorScheme c).
Proof.
  unfold save_states, QSettings_value. cbn [fold_left fst snd].
  repeat split;
    rewrite ?lookup_insert_ne by discriminate;
    now rewrite lookup_insert_eq.
Qed.

(** X1: what the destructor saves is what the next load restores.  After
    [save_states], a load into any context gives the dock status, the
    playlist visibility, grid view, grouping, remaining-time and
    pinned-controls flags and the colour scheme of the saved context, and
    its playlist width factor (up to the sign of a zero).  The interface
    scale comes back too when the engine leaves it to the settings and the
    saved factor is a single-precision value. *)
Theorem save_then_load_restores (saved c0 : MainCtx)
    (settings : gmap string QVariant) (p_intf : qt_intf_t)
    (callSignals : bool) :
  let c' :=
    ctx_of (loadFromSettingsImpl p_intf (save_states saved settings)
              callSignals c0) in
  b_playlistDocked c' = b_playlistDocked saved /\
  playlistVisible c' = playlistVisible saved /\
  m_gridView c' = m_gridView saved /\
  m_grouping c' = m_grouping saved /\
  m_showRemainingTime c' = m_showRemainingTime saved /\
  m_pinVideoControls c' = m_pinVideoControls saved /\
  m_colorScheme c' = m_colorScheme saved /\
  same_double (playlistWidthFactor c') (playlistWidthFactor saved) /\
  (Double.eqb (var_InheritFloat p_intf "qt-interface-scale")
     Double.minus_one = true ->
   Double.through_float (m_intfUserScaleFactor saved)
   = m_intfUserScaleFactor saved ->
   same_double (m_intfUserScaleFactor c') (m_intfUserScaleFactor saved)).
Proof.
  intros c'. subst c'. rewrite loadFromSettingsImpl_context.
  unfold loaded_context, userIntfScaleFactor.
  cbn [b_playlistDocked playlistVisible playlistWidthFactor
       m_showRemainingTime m_gridView m_grouping m_pinVideoControls
       m_colorScheme m_intfUserScaleFactor].
  repeat match goal with
         | |- context [QSettings_value (save_states saved settings) ?k ?d] =>
             let H := fresh "H" in
             pose proof (saved_values saved settings d) as H;
             cbv zeta in H;
             let E := fresh "E" in
             assert (E : QSettings_value (save_states saved settings) k d
                         = _) by (apply H);
             rewrite E; clear E H
         end.
  cbn [QVariant_toBool QVariant_toInt QVariant_toDouble].
  rewrite !loaded_value_bool, !loaded_value_Z.
  repeat (split; [reflexivity |]).
  split; [apply loaded_value_double |].
  intros Hinh Hfloat. rewrite Hinh, Hfloat. apply loaded_value_double.
Qed.

Lemma save_then_load_restores_witness :
  same_double
    (m_intfUserScaleFactor
       (ctx_of (loadFromSettingsImpl Sample.intf_no_override
                  (save_states SampleMore.changed_ctx ∅) false Sample.ctx)))
    Sample.two.
Proof.
  exact (proj2 (proj2 (proj2 (proj2 (proj2 (proj2 (proj2 (proj2
           (save_then_load_restores SampleMore.changed_ctx Sample.ctx ∅
              Sample.intf_no_override false))))))))
           eq_refl eq_refl).
Defined.

(** X2: loading the settings is idempotent: a second load from the same
    store and the same engine options leaves the context the first load
    produced, whether or not signals are enabled. *)
Theorem loadFromSettingsImpl_idempotent (p_intf : qt_intf_t)
    (settings : gmap string QVariant) (first second : bool) (c : MainCtx) :
  ctx_of (loadFromSettingsImpl p_intf settings second
            (ctx_of (loadFromSettingsImpl p_intf settings first c)))
  = ctx_of (loadFromSettingsImpl p_intf settings first c).
Proof.
  rewrite !loadFromSettingsImpl_context.
  apply MainCtx_eq; unfold loaded_context;
    cbn [b_playlistDocked playlistVisible playlistWidthFactor
         m_showRemainingTime m_gridView m_grouping b_interfaceOnTop
         m_pinVideoControls m_hasAcrylicSurface m_acrylicActive
         m_preferHotkeys m_colorScheme m_intfUserScaleFactor
         m_intfScaleFactor];
    try reflexivity; try apply loaded_value_idem.
  set (user := userIntfScaleFactor p_intf settings).
  unfold loaded_value, Double.neqb, Double.eqb.
  rewrite (SFeqb_sym user (m_intfUserScaleFactor c)).
  destruct (SFeqb (m_intfUserScaleFactor c) user) eqn:E; cbn [negb].
  - now rewrite E.
  - now destruct (SFeqb user user).
Qed.

Lemma In_loaded_signal {T : Type} (callSignals : bool)
    (eqb : T -> T -> bool) (value old : T) (signal : T -> Signal)
    (s : Signal) :
  In s (loaded_signal callSignals eqb value old signal)
  <-> callSignals = true /\ eqb value old = false /\ s = signal value.
Proof.
  unfold loaded_signal.
  destruct (eqb value old), callSignals; cbn; intuition congruence.
Qed.

Lemma In_loaded_signals p_intf settings callSignals c (s : Signal) :
  let value key dflt := QSettings_value settings key dflt in
  let vdocked :=
    QVariant_toBool (value "MainWindow/pl-dock-status" (QV_bool true)) in
  let vvisible :=
    QVariant_toBool (value "MainWindow/playlist-visible" (QV_bool false)) in
  let vwidth :=
    QVariant_toDouble
      (value "MainWindow/playlist-width-factor" (QV_double Double.four)) in
  let vgrid :=
    QVariant_toBool (value "MainWindow/grid-view" (QV_bool true)) in
  let vgrouping :=
    QVariant_toInt (value "MainWindow/grouping" (QV_int GROUPING_NONE)) in
  let vremaining :=
    QVariant_toBool
      (value "MainWindow/ShowRemainingTime" (QV_bool false)) in
  let vpin :=
    QVariant_toBool
      (value "MainWindow/pin-video-controls" (QV_bool false)) in
  let vscheme :=
    QVariant_toInt
      (value "MainWindow/color-scheme" (QV_int ColorScheme_System)) in
  In s (loaded_signals p_intf settings callSignals c)
  <-> (callSignals = true /\
       (Bool.eqb vdocked (b_playlistDocked c) = false /\
        s = playlistDockedChanged vdocked))
      \/ (callSignals = true /\
          (Bool.eqb vvisible (playlistVisible c) = false /\
           s = playlistVisibleChanged vvisible))
      \/ (callSignals = true /\
          (Double.eqb vwidth (playlistWidthFactor c) = false /\
           s = playlistWidthFactorChanged vwidth))
      \/ (callSignals = true /\
          (Bool.eqb vgrid (m_gridView c) = false /\
           s = gridViewChanged vgrid))
      \/ (callSignals = true /\
          (Z.eqb vgrouping (m_grouping c) = false /\
           s = groupingChanged vgrouping))
      \/ (callSignals = true /\
          (Bool.eqb vremaining (m_showRemainingTime c) = false /\
           s = showRemainingTimeChanged vremaining))
      \/ (callSignals = true /\
          (Bool.eqb vpin (m_pinVideoControls c) = false /\
           s = pinVideoControlsChanged vpin))
      \/ ((m_colorScheme c =? vscheme) = false /\
          s = colorSchemeChanged vscheme)
      \/ (Double.neqb (m_intfUserScaleFactor c)
            (userIntfScaleFactor p_intf settings) = true /\
          s = intfScaleFactorChanged).
Proof.
  cbv zeta. unfold loaded_signals.
  rewrite !in_app_iff, !In_loaded_signal.
  destruct (m_colorScheme c =? _);
    destruct (Double.neqb (m_intfUserScaleFactor c) _);
    cbn [In]; intuition (try discriminate; try congruence).
Qed.

(** X3: which signals a settings load emits.  The change signal of a
    loaded member is emitted only when signals are enabled, and then
    exactly when the load changed the member, with the new value (shown
    for the members compared exactly: the five flags and the grouping).
    [intfScaleFactorChanged] does not depend on [callSignals]: it is
    emitted exactly when the user scale factor differs from the candidate,
    also by the silent load of the constructor. *)
Theorem loadFromSettingsImpl_signals_sound (p_intf : qt_intf_t)
    (settings : gmap string QVariant) (callSignals : bool) (c : MainCtx) :
  let r := loadFromSettingsImpl p_intf settings callSignals c in
  let announced (b : bool) (signal : bool -> Signal)
      (member : MainCtx -> bool) :=
    In (signal b) (signals_of r)
    <-> callSignals = true /\ member (ctx_of r) = b /\ member c <> b in
  (forall b, announced b playlistDockedChanged b_playlistDocked) /\
  (forall b, announced b playlistVisibleChanged playlistVisible) /\
  (forall b, announced b gridViewChanged m_gridView) /\
  (forall b, announced b showRemainingTimeChanged m_showRemainingTime) /\
  (forall b, announced b pinVideoControlsChanged m_pinVideoControls) /\
  (forall g,
     In (groupingChanged g) (signals_of r)
     <-> callSignals = true /\ m_grouping (ctx_of r) = g /\
         m_grouping c <> g) /\
  (In intfScaleFactorChanged (signals_of r)
   <-> Double.neqb (m_intfUserScaleFactor c)
         (userIntfScaleFactor p_intf settings) = true) /\
  (callSignals = false ->
   Forall (fun s => is_member_signal s = false) (signals_of r)).
Proof.
  intros r announced. subst r announced. cbv beta.
  rewrite loadFromSettingsImpl_signals, loadFromSettingsImpl_context.
  unfold loaded_context.
  cbn [b_playlistDocked playlistVisible m_gridView m_showRemainingTime
       m_pinVideoControls m_grouping].
  rewrite !loaded_value_bool, !loaded_value_Z.
  assert (Hbool : forall v old b : bool,
            Bool.eqb v old = false /\ b = v <-> v = b /\ old <> b).
  { intros [|] [|] [|]; cbn; intuition congruence. }
  assert (HZ : forall v old g : Z,
            Z.eqb v old = false /\ g = v <-> v = g /\ old <> g).
  { intros v old g. rewrite Z.eqb_neq. intuition congruence. }
  split; [| split; [| split; [| split; [| split; [| split; [| split]]]]]].
  - intros b. rewrite In_loaded_signals, <- Hbool.
    intuition (try discriminate; try congruence).
  - intros b. rewrite In_loaded_signals, <- Hbool.
    intuition (try discriminate; try congruence).
  - intros b. rewrite In_loaded_signals, <- Hbool.
    intuition (try discriminate; try congruence).
  - intros b. rewrite In_loaded_signals, <- Hbool.
    intuition (try discriminate; try congruence).
  - intros b. rewrite In_loaded_signals, <- Hbool.
    intuition (try discriminate; try congruence).
  - intros g. rewrite In_loaded_signals, <- HZ.
    intuition (try discriminate; try congruence).
  - rewrite In_loaded_signals.
    intuition (try discriminate; try congruence).
  - intros ->. apply List.Forall_forall. intros s Hs.
    rewrite In_loaded_signals in Hs.
    destruct Hs as [H | [H | [H | [H | [H | [H | [H | [H | H]]]]]]]];
      try (destruct H as (Hcs & _); discriminate);
      destruct H as (_ & ->); reflexivity.
Qed.

Lemma loadFromSettingsImpl_signals_sound_witness :
  Forall (fun s => is_member_signal s = false)
    (signals_of
       (loadFromSettingsImpl Sample.intf_scale_two Sample.stored false
          Sample.ctx)).
Proof.
  exact (proj2 (proj2 (proj2 (proj2 (proj2 (proj2 (proj2
           (loadFromSettingsImpl_signals_sound Sample.intf_scale_two
              Sample.stored false Sample.ctx)))))))
           eq_refl).
Defined.

(** X4: a reload that follows a load from the same store and options is
    silent, provided the playlist width factor read from the store and the
    candidate scale factor are numbers: every member already compares
    equal to the value read for it, so no signal is emitted even with
    signals enabled. *)
Theorem second_reload_is_silent (p_intf : qt_intf_t)
    (settings : gmap string QVariant) (first second : bool) (c : MainCtx) :
  QVariant_toDouble
    (QSettings_value settings "MainWindow/playlist-width-factor"
       (QV_double Double.four)) <> S754_nan ->
  userIntfScaleFactor p_intf settings <> S754_nan ->
  signals_of
    (loadFromSettingsImpl p_intf settings second
       (ctx_of (loadFromSettingsImpl p_intf settings first c)))
  = [].
Proof.
  intros Hwidth Huser.
  rewrite loadFromSettingsImpl_signals, loadFromSettingsImpl_context.
  unfold loaded_signals, loaded_context.
  cbn [b_playlistDocked playlistVisible playlistWidthFactor
       m_showRemainingTime m_gridView m_grouping m_pinVideoControls
       m_colorScheme m_intfUserScaleFactor].
  rewrite !loaded_value_bool, !loaded_value_Z.
  unfold loaded_signal. rewrite !Bool.eqb_reflx, !Z.eqb_refl.
  cbn [app].
  set (w := QVariant_toDouble _) in *.
  set (user := userIntfScaleFactor p_intf settings) in *.
  assert (Hw : Double.eqb w (loaded_value Double.eqb w (playlistWidthFactor c))
               = true).
  { unfold loaded_value.
    destruct (Double.eqb w (playlistWidthFactor c)) eqn:E; [exact E |].
    now apply SFeqb_refl. }
  assert (Hu : Double.neqb
                 (loaded_value Double.eqb user (m_intfUserScaleFactor c))
                 user = false).
  { unfold loaded_value, Double.neqb, Double.eqb.
    destruct (SFeqb user (m_intfUserScaleFactor c)) eqn:E.
    - now rewrite SFeqb_sym, E.
    - now rewrite SFeqb_refl. }
  now rewrite Hw, Hu.
Qed.

Lemma second_reload_is_silent_witness :
  signals_of
    (loadFromSettingsImpl Sample.intf_scale_two Sample.stored true
       (ctx_of (loadFromSettingsImpl Sample.intf_scale_two Sample.stored true
                  Sample.ctx)))
  = [].
Proof.
  apply (second_reload_is_silent Sample.intf_scale_two Sample.stored true
           true Sample.ctx); discriminate.
Defined.

End LoadSettingsMore.

(** ** The user scale factor stays within its bounds *)
Section UserScaleFactorBounds.

Local Open Scope method_scope.

Lemma SFcompare_number (x y : double) :
  x <> S754_nan -> y <> S754_nan -> SFcompare x y <> None.
Proof.
  intros Hx Hy.
  destruct x as [sx | [|] | | [|] mx ex], y as [sy | [|] | | [|] my ey];
    cbn [SFcompare]; congruence.
Qed.

Lemma SFltb_SFleb (x y : double) : SFltb x y = true -> SFleb x y = true.
Proof. unfold SFltb, SFleb. now destruct (SFcompare x y) as [[| |] |]. Qed.

Lemma SFleb_refl (x : double) : x <> S754_nan -> SFleb x x = true.
Proof.
  intros Hx. pose proof (SFeqb_refl x Hx) as H. unfold SFeqb, SFleb in *.
  now destruct (SFcompare x x) as [[| |] |].
Qed.

Lemma SFltb_false_SFleb (x y : double) :
  x <> S754_nan -> y <> S754_nan -> SFltb x y = false -> SFleb y x = true.
Proof.
  intros Hx Hy. pose proof (SFcompare_number x y Hx Hy) as Hn.
  unfold SFltb, SFleb. rewrite (SFcompare_antisym x y).
  now destruct (SFcompare x y) as [[| |] |].
Qed.

Lemma bind_read {A B : Type} (member : MainCtx -> A) (k : A -> M B)
    (c : MainCtx) :
  bind (read member) k c = k (member c) c.
Proof.
  unfold bind, read. destruct (k (member c) c) as [[b c2] s2]. reflexivity.
Qed.

(** [qBound] lands between its bounds, whatever the value, [NaN]
    included. *)
Lemma qBound_bounds (min val max : double) :
  min <> S754_nan -> max <> S754_nan -> SFleb min max = true ->
  SFleb min (qBound min val max) = true /\
  SFleb (qBound min val max) max = true.
Proof.
  intros Hmin Hmax Hle. unfold qBound, qMax, qMin, Double.ltb.
  destruct (SFltb max val) eqn:Hmv.
  - destruct (SFltb min max) eqn:Hmm.
    + split; [exact Hle | now apply SFleb_refl].
    + split; [now apply SFleb_refl | exact Hle].
  - destruct (SFltb min val) eqn:Hlv.
    + split; [now apply SFltb_SFleb |].
      apply SFltb_false_SFleb; [exact Hmax | | exact Hmv].
      intros ->. destruct min as [? | [|] | | [|] ? ?]; discriminate.
    + split; [now apply SFleb_refl | exact Hle].
Qed.

Variable getMinIntfUserScaleFactor getMaxIntfUserScaleFactor : double.
Hypothesis min_number : getMinIntfUserScaleFactor <> S754_nan.
Hypothesis max_number : getMaxIntfUserScaleFactor <> S754_nan.
Hypothesis min_le_max :
  Double.leb getMinIntfUserScaleFactor getMaxIntfUserScaleFactor = true.

(** X5: whatever value is asked for, [setIntfUserScaleFactor] leaves a user
    scale factor between the minimum and the maximum (a value above the
    maximum, an infinity or a [NaN] included), a value strictly above the
    minimum and at most the maximum is stored as it is, the interface scale
    factor is recomputed from the stored value, and the change is signalled
    exactly once, even when nothing changed.  Stepping the factor up or down
    by 0.1 with [incrementIntfUserScaleFactor] therefore never leaves the
    bounds. *)
Theorem setIntfUserScaleFactor_clamps (p_intf : qt_intf_t)
    (newValue : double) (increment : bool) (c : MainCtx) :
  let lo := getMinIntfUserScaleFactor in
  let hi := getMaxIntfUserScaleFactor in
  let r := setIntfUserScaleFactor lo hi p_intf newValue c in
  let stepped := incrementIntfUserScaleFactor lo hi p_intf increment c in
  let within x := Double.leb lo x = true /\ Double.leb x hi = true in
  within (m_intfUserScaleFactor (ctx_of r)) /\
  (Double.ltb lo newValue = true -> Double.leb newValue hi = true ->
   m_intfUserScaleFactor (ctx_of r) = newValue) /\
  m_intfScaleFactor (ctx_of r)
  = intfScaleFactor_of p_intf (m_intfUserScaleFactor (ctx_of r)) /\
  signals_of r = [intfScaleFactorChanged] /\
  within (m_intfUserScaleFactor (ctx_of stepped)) /\
  signals_of stepped = [intfScaleFactorChanged].
Proof.
  intros lo hi r stepped within.
  assert (Hset : forall v c0,
            let r0 := setIntfUserScaleFactor lo hi p_intf v c0 in
            m_intfUserScaleFactor (ctx_of r0) = qBound lo v hi /\
            m_intfScaleFactor (ctx_of r0)
            = intfScaleFactor_of p_intf (qBound lo v hi) /\
            signals_of r0 = [intfScaleFactorChanged]).
  { intros v c0.
    unfold setIntfUserScaleFactor, updateIntfScaleFactor, bind, assign, read,
      emit, ret, ctx_of, signals_of, intfScaleFactor_of.
    destruct (logicalDotsPerInch p_intf); cbn; repeat split. }
  destruct (Hset newValue c) as (Hm & Hf & Hs). fold r in Hm, Hf, Hs.
  assert (Hstep : exists v,
            stepped = setIntfUserScaleFactor lo hi p_intf v c).
  { exists (if increment then add (m_intfUserScaleFactor c) one_tenth
            else sub (m_intfUserScaleFactor c) one_tenth).
    subst stepped. unfold incrementIntfUserScaleFactor.
    rewrite bind_read. destruct increment; reflexivity. }
  destruct Hstep as (v & Hv). destruct (Hset v c) as (Hm' & _ & Hs').
  rewrite <- Hv in Hm', Hs'.
  subst within. cbv beta. unfold Double.leb, Double.ltb in *.
  rewrite Hm, Hm', Hf.
  split; [now apply qBound_bounds |].
  split.
  { intros Hlo Hhi. unfold qBound, qMax, qMin, Double.ltb.
    now rewrite (SFleb_SFltb_false _ _ Hhi), Hlo. }
  split; [reflexivity |]. split; [exact Hs |].
  split; [now apply qBound_bounds | exact Hs'].
Qed.

End UserScaleFactorBounds.

Lemma setIntfUserScaleFactor_clamps_witness :
  m_intfUserScaleFactor
    (ctx_of (setIntfUserScaleFactor SampleMore.zero_three SampleMore.three
               Sample.intf_no_override Double.four Sample.ctx))
  = SampleMore.three /\
  m_intfUserScaleFactor
    (ctx_of (setIntfUserScaleFactor SampleMore.zero_three SampleMore.three
               Sample.intf_no_override Sample.two Sample.ctx))
  = Sample.two.
Proof.
  pose proof (setIntfUserScaleFactor_clamps SampleMore.zero_three
                SampleMore.three ltac:(discriminate) ltac:(discriminate)
                eq_refl Sample.intf_no_override) as H.
  split.
  - reflexivity.
  - exact (proj1 (proj2 (H Sample.two true Sample.ctx)) eq_refl eq_refl).
Defined.

(** ** Preferences inherited from the engine *)
Section LoadPrefs.

Variable csd_available : bool.
Variable obj : vlc_options.

(** The state [loadPrefs] leaves, member by member. *)
Lemma loadPrefs_state (callSignals : bool) (c : MainCtx) (p : PrefMembers) :
  fst (loadPrefs csd_available obj callSignals (c, p))
  = (set_b_interfaceOnTop (loadVLCOption_bool obj "video-on-top") c,
     mkPrefMembers
       (loadVLCOption_bool obj "qt-minimal-view")
       (loadVLCOption_int obj "qt-notification")
       (loadVLCOption_bool obj "qt-menubar")
       (if csd_available then loadVLCOption_bool obj "qt-titlebar"
        else m_windowTitlebar p)
       (loadVLCOption_bool obj "qt-smooth-scrolling")).
Proof.
  unfold loadPrefs.
  generalize (loadVLCOption_bool obj "video-on-top"),
    (loadVLCOption_bool obj "qt-minimal-view"),
    (loadVLCOption_int obj "qt-notification"),
    (loadVLCOption_bool obj "qt-menubar"),
    (loadVLCOption_bool obj "qt-titlebar"),
    (loadVLCOption_bool obj "qt-smooth-scrolling").
  intros vtop vmin vnotif vmenu vtitle vsmooth.
  destruct c, p. unfold and_then, loadFromVLCOption.
  cbn [fst snd b_minimalView i_notificationSetting m_hasToolbarMenu
       m_windowTitlebar m_smoothScroll b_interfaceOnTop on_prefs on_ctx
       set_b_interfaceOnTop].
  repeat match goal with
         | |- context [if ?b then _ else _] =>
             destruct b eqn:?;
             cbn [fst snd b_minimalView i_notificationSetting
                  m_hasToolbarMenu m_windowTitlebar m_smoothScroll
                  b_interfaceOnTop on_prefs on_ctx set_b_interfaceOnTop
                  playlistVisible b_playlistDocked playlistWidthFactor
                  m_showRemainingTime m_gridView m_grouping
                  m_pinVideoControls m_hasAcrylicSurface m_acrylicActive
                  m_preferHotkeys m_colorScheme m_intfUserScaleFactor
                  m_intfScaleFactor]
         end;
    repeat match goal with
           | H : Bool.eqb _ _ = true |- _ => apply Bool.eqb_prop in H
           | H : Z.eqb _ _ = true |- _ => apply Z.eqb_eq in H
           end; subst; reflexivity.
Qed.

(** The signals [loadPrefs] emits, in order. *)
Lemma loadPrefs_signals (callSignals : bool) (c : MainCtx)
    (p : PrefMembers) :
  snd (loadPrefs csd_available obj callSignals (c, p))
  = if callSignals then
      (if Bool.eqb (loadVLCOption_bool obj "video-on-top")
            (b_interfaceOnTop c)
       then []
       else [sig_interfaceAlwaysOnTopChanged
               (loadVLCOption_bool obj "video-on-top")])
      ++ (if Bool.eqb (loadVLCOption_bool obj "qt-menubar")
               (m_hasToolbarMenu p)
          then [] else [hasToolbarMenuChanged])
      ++ (if csd_available
             && negb (Bool.eqb (loadVLCOption_bool obj "qt-titlebar")
                        (m_windowTitlebar p))
          then [useClientSideDecorationChanged] else [])
      ++ (if Bool.eqb (loadVLCOption_bool obj "qt-smooth-scrolling")
               (m_smoothScroll p)
          then [] else [smoothScrollChanged])
    else [].
Proof.
  unfold loadPrefs.
  generalize (loadVLCOption_bool obj "video-on-top"),
    (loadVLCOption_bool obj "qt-minimal-view"),
    (loadVLCOption_int obj "qt-notification"),
    (loadVLCOption_bool obj "qt-menubar"),
    (loadVLCOption_bool obj "qt-titlebar"),
    (loadVLCOption_bool obj "qt-smooth-scrolling").
  intros vtop vmin vnotif vmenu vtitle vsmooth.
  destruct c, p. unfold and_then, loadFromVLCOption.
  cbn [fst snd b_minimalView i_notificationSetting m_hasToolbarMenu
       m_windowTitlebar m_smoothScroll b_interfaceOnTop on_prefs on_ctx
       set_b_interfaceOnTop].
  destruct callSignals, csd_available;
    repeat match goal with
           | |- context [if ?b then _ else _] =>
               destruct b eqn:?;
               cbn [fst snd b_minimalView i_notificationSetting
                    m_hasToolbarMenu m_windowTitlebar m_smoothScroll
                    b_interfaceOnTop on_prefs on_ctx set_b_interfaceOnTop
                    andb negb app] in *
           end;
    try reflexivity; congruence.
Qed.

(** X6: after [loadPrefs] every preference member holds the value of its
    engine option (the notification setting as the [int] its 64-bit option
    converts to, the title bar flag only in a build with client-side
    decoration), and nothing else in the context changes.  So a second
    [loadPrefs] with the same options, with or without signals, changes
    nothing and emits nothing. *)
Theorem loadPrefs_takes_engine_options (callSignals again : bool)
    (c : MainCtx) (p : PrefMembers) :
  let st' := fst (loadPrefs csd_available obj callSignals (c, p)) in
  fst st' = set_b_interfaceOnTop (var_InheritBool obj "video-on-top") c /\
  b_interfaceOnTop (fst st') = var_InheritBool obj "video-on-top" /\
  b_minimalView (snd st') = var_InheritBool obj "qt-minimal-view" /\
  i_notificationSetting (snd st')
  = int_of_int64 (var_InheritInteger obj "qt-notification") /\
  m_hasToolbarMenu (snd st') = var_InheritBool obj "qt-menubar" /\
  m_windowTitlebar (snd st')
  = (if csd_available then var_InheritBool obj "qt-titlebar"
     else m_windowTitlebar p) /\
  m_smoothScroll (snd st') = var_InheritBool obj "qt-smooth-scrolling" /\
  loadPrefs csd_available obj again st' = (st', []).
Proof.
  intros st'. subst st'. rewrite loadPrefs_state.
  cbn [fst snd b_minimalView i_notificationSetting m_hasToolbarMenu
       m_windowTitlebar m_smoothScroll].
  repeat (split; [reflexivity |]).
  match goal with
  | |- ?l = _ => rewrite (surjective_pairing l)
  end.
  rewrite loadPrefs_state, loadPrefs_signals.
  cbn [fst snd b_minimalView i_notificationSetting m_hasToolbarMenu
       m_windowTitlebar m_smoothScroll].
  f_equal.
  - f_equal. now destruct csd_available.
  - assert (Htop : b_interfaceOnTop
                     (set_b_interfaceOnTop
                        (loadVLCOption_bool obj "video-on-top") c)
                   = loadVLCOption_bool obj "video-on-top") by reflexivity.
    rewrite Htop, !Bool.eqb_reflx.
    destruct again; [| reflexivity].
    destruct csd_available; cbn [andb]; [| reflexivity].
    now rewrite Bool.eqb_reflx.
Qed.

(** X7: which signals [loadPrefs] emits.  Without signals it emits none.
    With signals ([reloadPrefs]) each of the four signalled preferences is
    announced exactly when its member changed, the on-top flag with its new
    value and the title bar only in a build with client-side decoration; a
    change of the minimal-view flag or of the notification setting is never
    announced. *)
Theorem reloadPrefs_signals_changes (c : MainCtx) (p : PrefMembers) :
  let emitted := snd (reloadPrefs csd_available obj (c, p)) in
  snd (loadPrefs csd_available obj false (c, p)) = [] /\
  (forall b,
     In (sig_interfaceAlwaysOnTopChanged b) emitted
     <-> var_InheritBool obj "video-on-top" = b /\ b_interfaceOnTop c <> b) /\
  (In hasToolbarMenuChanged emitted
   <-> m_hasToolbarMenu p <> var_InheritBool obj "qt-menubar") /\
  (In useClientSideDecorationChanged emitted
   <-> csd_available = true /\
       m_windowTitlebar p <> var_InheritBool obj "qt-titlebar") /\
  (In smoothScrollChanged emitted
   <-> m_smoothScroll p <> var_InheritBool obj "qt-smooth-scrolling") /\
  (b_interfaceOnTop c = var_InheritBool obj "video-on-top" ->
   m_hasToolbarMenu p = var_InheritBool obj "qt-menubar" ->
   m_windowTitlebar p = var_InheritBool obj "qt-titlebar" ->
   m_smoothScroll p = var_InheritBool obj "qt-smooth-scrolling" ->
   emitted = []).
Proof.
  intros emitted. subst emitted. unfold reloadPrefs.
  rewrite !loadPrefs_signals. unfold loadVLCOption_bool.
  generalize (var_InheritBool obj "video-on-top"),
    (var_InheritBool obj "qt-menubar"),
    (var_InheritBool obj "qt-titlebar"),
    (var_InheritBool obj "qt-smooth-scrolling").
  intros vtop vmenu vtitle vsmooth.
  split; [reflexivity |].
  split; [intros b |];
    destruct csd_available, vtop, vmenu, vtitle, vsmooth,
      (b_interfaceOnTop c), (m_hasToolbarMenu p), (m_windowTitlebar p),
      (m_smoothScroll p);
    try destruct b;
    cbn [Bool.eqb andb negb app In];
    intuition (try discriminate; try congruence).
Qed.

End LoadPrefs.

Lemma reloadPrefs_signals_changes_witness :
  snd (reloadPrefs true SampleMore.options
         (set_b_interfaceOnTop true Sample.ctx,
          mkPrefMembers true 0 false false false))
  = [].
Proof.
  exact (proj2 (proj2 (proj2 (proj2 (proj2
           (reloadPrefs_signals_changes true SampleMore.options
              (set_b_interfaceOnTop true Sample.ctx)
              (mkPrefMembers true 0 false false false))))))
           eq_refl eq_refl eq_refl eq_refl).
Defined.

(** ** The calls a drop makes *)
Section DropDiscipline.

Variable toURI : string -> string.
Variable isValidUrlText : string -> bool.
Variable symLinkTargetUrl : QUrl -> option QUrl.
Variable hasInput : bool.
Variable AddAssociatedMedia : string -> Z.

Lemma enqueue_dropped_shape (event : QDropEvent) (b_play : bool) :
  let medias :=
    dropped_medias toURI symLinkTargetUrl (urls (mimeData event))
    ++ dropped_text toURI isValidUrlText (mimeData event) in
  enqueue_dropped toURI isValidUrlText symLinkTargetUrl event b_play
  = (if Nat.eqb (length medias) 0 then [accept]
     else [append medias b_play; accept]).
Proof.
  unfold enqueue_dropped.
  now destruct (dropped_medias _ _ _ ++ dropped_text _ _ _).
Qed.

(** X8: the calls of a handled drop are well formed.  When the drop offers
    the copy, move or link action, [dropEventPlay] first fixes the drop
    action to copy and last accepts the event; in between it asks the
    player at most once to attach a subtitle, only with active media and a
    single locator, and appends to the playlist at most once, never an
    empty batch and always with the [b_play] it was given. *)
Theorem dropEventPlay_call_discipline (event : QDropEvent)
    (b_play : bool) :
  let calls :=
    dropEventPlay toURI isValidUrlText symLinkTargetUrl hasInput
      AddAssociatedMedia event b_play in
  Z.land (possibleActions event)
    (Z.lor (Z.lor CopyAction MoveAction) LinkAction) <> 0 ->
  hd_error calls = Some (setDropAction CopyAction) /\
  List.last calls (setDropAction 0) = accept /\
  (length (List.filter is_attach calls) <= 1)%nat /\
  (length (List.filter is_append calls) <= 1)%nat /\
  (forall medias b,
     In (append medias b) calls -> medias <> [] /\ b = b_play) /\
  (forall uri select notify check_ext,
     In (AddAssociatedMedia_SPU_ES uri select notify check_ext) calls ->
     hasInput = true /\
     exists url, urls (mimeData event) = [url] /\ uri = toString url).
Proof.
  intros calls Hoffered. subst calls. unfold dropEventPlay.
  destruct (Z.eqb_spec (Z.land (possibleActions event)
                          (Z.lor (Z.lor CopyAction MoveAction) LinkAction))
              0) as [Hz | _]; [contradiction |].
  assert (Htail :
    let tail :=
      enqueue_dropped toURI isValidUrlText symLinkTargetUrl event b_play in
    List.last (setDropAction CopyAction :: tail) (setDropAction 0) = accept /\
    (forall d, List.last (d :: tail) (setDropAction 0) = accept) /\
    List.filter is_attach tail = [] /\
    (length (List.filter is_append tail) <= 1)%nat /\
    (forall medias b,
       In (append medias b) tail -> medias <> [] /\ b = b_play) /\
    (forall uri s n x, ~ In (AddAssociatedMedia_SPU_ES uri s n x) tail)).
  { cbv zeta. rewrite enqueue_dropped_shape.
    destruct (dropped_medias _ _ _ ++ dropped_text _ _ _) as [| m l] eqn:E;
      cbn [length Nat.eqb List.filter is_attach is_append In List.last].
    - split; [reflexivity |]. split; [reflexivity |].
      split; [reflexivity |]. split; [lia |]. split.
      + intros medias b [H | []]. discriminate.
      + intros uri s n x [H | []]. discriminate.
    - split; [reflexivity |]. split; [reflexivity |].
      split; [reflexivity |]. split; [lia |]. split.
      + intros medias b [H | [H | []]]; [| discriminate].
        injection H as <- <-. split; [discriminate | reflexivity].
      + intros uri s n x [H | [H | []]]; discriminate. }
  cbv zeta in Htail.
  destruct Htail as (Hlast & Hlast' & Hatt & Happ & Hbatch & Hnone).
  destruct (urls (mimeData event)) as [| url [| url' rest]] eqn:Hurls.
  - split; [reflexivity |]. split; [exact Hlast |].
    cbn [List.filter is_attach is_append]. rewrite Hatt.
    split; [cbn; lia |]. split; [exact Happ |].
    split.
    + intros medias b [H | H]; [discriminate | eauto].
    + intros uri s n x [H | H]; [discriminate | now apply Hnone in H].
  - destruct hasInput.
    + split; [reflexivity |].
      destruct (AddAssociatedMedia (toString url) =? 0).
      * cbn [List.last List.filter is_attach is_append length In].
        split; [reflexivity |]. split; [lia |]. split; [lia |]. split.
        -- intros medias b [H | [H | [H | []]]]; discriminate.
        -- intros uri s n x [H | [H | [H | []]]]; try discriminate.
           split; [reflexivity |]. exists url.
           split; [reflexivity |]. now injection H.
      * split.
        { change (List.last
                    (setDropAction CopyAction ::
                     AddAssociatedMedia_SPU_ES (toString url) true true true
                     :: enqueue_dropped toURI isValidUrlText symLinkTargetUrl
                          event b_play) (setDropAction 0))
            with (List.last
                    (AddAssociatedMedia_SPU_ES (toString url) true true true
                     :: enqueue_dropped toURI isValidUrlText symLinkTargetUrl
                          event b_play) (setDropAction 0)).
          apply Hlast'. }
        cbn [List.filter is_attach is_append]. rewrite Hatt.
        split; [cbn; lia |]. split; [exact Happ |].
        split.
        -- intros medias b [H | [H | H]]; try discriminate. eauto.
        -- intros uri s n x [H | [H | H]]; try discriminate.
           ++ split; [reflexivity |]. exists url.
              split; [reflexivity |]. now injection H.
           ++ now apply Hnone in H.
    + split; [reflexivity |]. split; [exact Hlast |].
      cbn [List.filter is_attach is_append]. rewrite Hatt.
      split; [cbn; lia |]. split; [exact Happ |].
      split.
      * intros medias b [H | H]; [discriminate | eauto].
      * intros uri s n x [H | H]; [discriminate | now apply Hnone in H].
  - split; [reflexivity |]. split; [exact Hlast |].
    cbn [List.filter is_attach is_append]. rewrite Hatt.
    split; [cbn; lia |]. split; [exact Happ |].
    split.
    + intros medias b [H | H]; [discriminate | eauto].
    + intros uri s n x [H | H]; [discriminate | now apply Hnone in H].
Qed.

(** X9: a drop without locators.  When the locator list is empty, no
    attachment is attempted whatever the player state; the text of the drop
    is enqueued, as one item, exactly when the drop carries no locator
    format, has text and the text is a valid URL; otherwise nothing is
    enqueued.  The event is accepted either way. *)
Theorem dropEventPlay_without_locators (event : QDropEvent)
    (b_play : bool) (queue : list Media) :
  let calls :=
    dropEventPlay toURI isValidUrlText symLinkTargetUrl hasInput
      AddAssociatedMedia event b_play in
  let mime := mimeData event in
  Z.land (possibleActions event)
    (Z.lor (Z.lor CopyAction MoveAction) LinkAction) <> 0 ->
  urls mime = [] ->
  List.filter is_attach calls = [] /\
  In accept calls /\
  playlist_after calls queue
  = (if negb (hasUrls mime) && hasText mime && isValidUrlText (text mime)
     then queue ++ [mkMedia (toURI (text mime)) EmptyString]
     else queue).
Proof.
  intros calls mime Hoffered Hurls. subst calls. unfold dropEventPlay.
  destruct (Z.eqb_spec (Z.land (possibleActions event)
                          (Z.lor (Z.lor CopyAction MoveAction) LinkAction))
              0) as [Hz | _]; [contradiction |].
  fold mime. rewrite Hurls. rewrite enqueue_dropped_shape.
  fold mime. rewrite Hurls. cbn [dropped_medias app]. unfold dropped_text.
  destruct (negb (hasUrls mime) && hasText mime
            && isValidUrlText (text mime)); cbn.
  - repeat split; auto.
  - repeat split; auto.
Qed.

End DropDiscipline.

Lemma dropEventPlay_call_discipline_witness :
  List.last
    (dropEventPlay Sample.toURI_id Sample.any_text_valid Sample.no_symlink
       true Sample.attach_srt_only (Sample.drop_of Sample.url_movie) true)
    (setDropAction 0)
  = accept.
Proof.
  exact (proj1 (proj2 (dropEventPlay_call_discipline Sample.toURI_id
                         Sample.any_text_valid Sample.no_symlink true
                         Sample.attach_srt_only
                         (Sample.drop_of Sample.url_movie) true
                         ltac:(discriminate)))).
Defined.

Lemma dropEventPlay_without_locators_witness :
  playlist_after
    (dropEventPlay Sample.toURI_id Sample.any_text_valid Sample.no_symlink
       true Sample.attach_srt_only
       (mkQDropEvent CopyAction
          (mkQMimeData [] false true "https://example.org/a.mkv")) true) []
  = [mkMedia "https://example.org/a.mkv" EmptyString].
Proof.
  exact (proj2 (proj2 (dropEventPlay_without_locators Sample.toURI_id
                         Sample.any_text_valid Sample.no_symlink true
                         Sample.attach_srt_only
                         (mkQDropEvent CopyAction
                            (mkQMimeData [] false true
                               "https://example.org/a.mkv")) true []
                         ltac:(discriminate) eq_refl))).
Defined.

(** * Further properties of the window provider *)

Import MacOSXMore.

(** ** The two queues *)
Section Queues.

Lemma set_mainQueue_idle (st : State) :
  mainQueue st = [] -> set_mainQueue [] st = st.
Proof. destruct st; cbn; intros ->; reflexivity. Qed.

Lemma enqueue_requests (blocks : list MainBlock) (st : State) :
  fold_left (fun st block => dispatch_async_main block st) blocks st
  = set_mainQueue (mainQueue st ++ blocks) st.
Proof.
  revert st. induction blocks as [| block blocks IH]; intros st.
  - cbn. rewrite app_nil_r. now destruct st.
  - cbn [fold_left]. rewrite IH. unfold dispatch_async_main. state_simpl.
    now rewrite <- app_assoc.
Qed.

(** A block does not look at the main queue it was taken from. *)
Lemma run_main_block_queue (block : MainBlock) (q q' : list MainBlock)
    (st : State) :
  set_mainQueue q (run_main_block block (set_mainQueue q' st))
  = run_main_block block (set_mainQueue q st).
Proof.
  destruct st as [ops sys type wc sd d w mq r msgs dl].
  destruct block; cbn [run_main_block]; unfold to_weakWc; state_simpl;
    destruct wc; try reflexivity;
    unfold showWindowWithConfig, setWindowDecorated, setWindowFullscreen,
      toggleFullScreen, on_window, to_moduleDelegate, isWindowFullscreen;
    state_simpl; destruct w as [win |]; state_simpl; try reflexivity;
    repeat match goal with
           | |- context [if ?b then _ else _] => destruct b; state_simpl
           end;
    destruct d; reflexivity.
Qed.

Lemma main_queue_turns (blocks : list MainBlock) (st : State) :
  mainQueue st = blocks ->
  Nat.iter (length blocks) main_queue_step st
  = fold_left (fun st block => run_main_block block st) blocks
      (set_mainQueue [] st).
Proof.
  revert st. induction blocks as [| block blocks IH]; intros st Hq.
  - cbn. now rewrite set_mainQueue_idle.
  - cbn [length fold_left]. rewrite Nat.iter_succ_r.
    assert (Hstep : main_queue_step st
                    = run_main_block block (set_mainQueue blocks st))
      by (unfold main_queue_step; now rewrite Hq).
    rewrite Hstep.
    destruct (run_main_block_frame block (set_mainQueue blocks st))
      as (_ & _ & _ & _ & _ & _ & _ & Hkeep).
    cbv zeta in Hkeep. rewrite (IH _ Hkeep). f_equal.
    apply run_main_block_queue.
Qed.

(** X10: the main queue is first in, first out, and nothing is lost.  The
    requests the engine makes while the main queue is idle are served in
    the order they were made, each exactly once, whether the main thread
    serves them in one go or one turn at a time; and an enable request
    returns after all of them and after its own block. *)
Theorem requests_served_in_order (blocks : list MainBlock)
    (cfg : vout_window_cfg_t) (st : State) :
  mainQueue st = [] ->
  let requested :=
    fold_left (fun st block => dispatch_async_main block st) blocks st in
  let served :=
    fold_left (fun st block => run_main_block block st) blocks st in
  mainQueue requested = blocks /\
  drain_main requested = served /\
  Nat.iter (length blocks) main_queue_step requested = served /\
  snd (WindowEnable cfg requested)
  = run_main_block (block_showWindowWithConfig cfg) served.
Proof.
  intros Hq requested served. subst requested served.
  rewrite enqueue_requests, Hq. cbn [app].
  assert (Hdrain : drain_main (set_mainQueue blocks st)
                   = fold_left (fun st block => run_main_block block st)
                       blocks st).
  { unfold drain_main.
    change (mainQueue (set_mainQueue blocks st)) with blocks.
    change (set_mainQueue [] (set_mainQueue blocks st))
      with (set_mainQueue [] st).
    now rewrite (set_mainQueue_idle st Hq). }
  split; [reflexivity |]. split; [exact Hdrain |]. split.
  - rewrite (main_queue_turns blocks (set_mainQueue blocks st) eq_refl).
    change (set_mainQueue [] (set_mainQueue blocks st))
      with (set_mainQueue [] st).
    now rewrite (set_mainQueue_idle st Hq).
  - unfold WindowEnable, dispatch_sync_main. cbn [snd]. now rewrite Hdrain.
Qed.

End Queues.

Lemma requests_served_in_order_witness :
  drain_main
    (WindowSetTitle "film" (WindowResize 640 480 (WindowDisable Sample.opened)))
  = run_main_block (block_setTitle "film")
      (run_main_block (block_resize 640 480)
         (run_main_block block_close Sample.opened)).
Proof.
  exact (proj1 (proj2 (requests_served_in_order
                         [block_close; block_resize 640 480;
                          block_setTitle "film"]
                         Sample.cfg_720p Sample.opened eq_refl))).
Defined.

(** ** Reports reach the engine once and in order *)
Section Reports.

Lemma report_method_block (call : ReportCall) (pending : list EventBlock) :
  map run_event_block (report_method call pending)
  = map run_event_block pending ++ [report_of_call call].
Proof.
  destruct call; unfold report_method, reportFullscreen, reportWindowed,
    reportSizeChanged, reportClose, enqueueEventBlock;
    now rewrite map_app.
Qed.

(** While the module holds its delegate, a report call or a turn of the
    event queue keeps the delegate alive; what the engine has received
    followed by what is still pending grows by the report of the call and
    is left alone by a turn. *)
Lemma run_queue_event_eventual (ev : QueueEvent) (st : State)
    (pending : list EventBlock) :
  sys_delegate st = true ->
  delegate st = Some pending ->
  let st' := run_queue_event ev st in
  sys_delegate st' = true /\
  exists pending',
    delegate st' = Some pending' /\
    reported st' ++ map run_event_block pending'
    = (reported st ++ map run_event_block pending)
      ++ reports_of_events [ev].
Proof.
  intros Hs Hd. destruct ev as [call |]; cbn [run_queue_event].
  - unfold to_moduleDelegate. rewrite Hd. state_simpl.
    split; [exact Hs |]. eexists. split; [reflexivity |].
    rewrite report_method_block. cbn [reports_of_events flat_map app].
    now rewrite <- !app_assoc.
  - unfold eventQueue_step. rewrite Hd.
    cbn [reports_of_events flat_map]. rewrite app_nil_r.
    destruct pending as [| block rest].
    + split; [exact Hs |]. exists []. now rewrite Hd.
    + state_simpl. destruct rest as [| block' rest'].
      * rewrite Hs. state_simpl. split; [exact Hs |].
        exists []. split; [reflexivity |]. cbn [map].
        now rewrite !app_nil_r.
      * state_simpl. split; [exact Hs |]. eexists.
        split; [reflexivity |]. cbn [map]. now rewrite <- !app_assoc.
Qed.

(** Within the range of [unsigned int], the cast of a size component keeps
    its whole part. *)
Lemma unsigned_of_CGFloat_fits (x : Q) :
  (0 <= x)%Q -> (x < inject_Z (2 ^ 32))%Q ->
  unsigned_of_CGFloat x = Qfloor x.
Proof.
  destruct x as [n d].
  unfold Qle, Qlt, unsigned_of_CGFloat, Qfloor, inject_Z.
  cbn [Qnum Qden]. intros Hn Hd.
  rewrite Z.quot_div_nonneg by lia.
  apply Z.mod_small. split.
  - apply Z.div_pos; lia.
  - apply Z.div_lt_upper_bound; lia.
Qed.

Lemma run_event_block_fits (blocks : list EventBlock) :
  Forall block_fits_unsigned blocks ->
  map run_event_block blocks = map report_of_block blocks.
Proof.
  induction 1 as [| block blocks Hfit _ IH]; [reflexivity |].
  cbn [map]. rewrite IH. f_equal.
  destruct block; try reflexivity.
  destruct Hfit as (Hw0 & Hw1 & Hh0 & Hh1).
  cbn [run_event_block report_of_block].
  now rewrite !unsigned_of_CGFloat_fits.
Qed.

Lemma reports_of_events_blocks (events : list QueueEvent) :
  reports_of_events events = map run_event_block (blocks_of_events events).
Proof.
  induction events as [| [call |] events IH]; [reflexivity | |].
  - change (reports_of_events (ev_report call :: events))
      with (report_of_call call :: reports_of_events events).
    change (blocks_of_events (ev_report call :: events))
      with (block_of_call call :: blocks_of_events events).
    cbn [map]. rewrite IH. now destruct call.
  - exact IH.
Qed.

(** X11: every report reaches the engine exactly once, in the order the
    reports were made.  On a module that holds its delegate, however the
    turns of the event queue interleave with the report calls, once the
    queue has run what is left the engine has received what it had, then
    the reports that were pending, then one report per call, in call
    order.  The sizes reported are those the cast to [unsigned int] is
    defined for, and the engine receives their whole pixels. *)
Theorem reports_delivered_once_in_order (events : list QueueEvent)
    (st : State) (pending : list EventBlock) :
  sys_delegate st = true ->
  delegate st = Some pending ->
  Forall block_fits_unsigned pending ->
  Forall block_fits_unsigned (blocks_of_events events) ->
  let st' := fold_left (fun st ev => run_queue_event ev st) events st in
  exists pending',
    delegate st' = Some pending' /\
    reported (eventQueue_run (length pending') st')
    = reported st
      ++ map report_of_block (pending ++ blocks_of_events events).
Proof.
  intros Hs Hd Hfit Hfits st'. subst st'.
  assert (H : exists pending',
            delegate (fold_left (fun st ev => run_queue_event ev st)
                        events st) = Some pending' /\
            reported (fold_left (fun st ev => run_queue_event ev st)
                        events st) ++ map run_event_block pending'
            = (reported st ++ map run_event_block pending)
              ++ reports_of_events events).
  { clear Hfit Hfits. revert st pending Hs Hd.
    induction events as [| ev events IH]; intros st pending Hs Hd.
    - exists pending. cbn. now rewrite app_nil_r.
    - cbn [fold_left].
      destruct (run_queue_event_eventual ev st pending Hs Hd)
        as (Hs1 & pending1 & Hd1 & He1).
      destruct (IH _ _ Hs1 Hd1) as (pending' & Hd' & He').
      exists pending'. split; [exact Hd' |].
      rewrite He', He1. cbn [reports_of_events flat_map].
      now rewrite app_nil_r, <- !app_assoc. }
  destruct H as (pending' & Hd' & He').
  exists pending'. split; [exact Hd' |].
  rewrite (eventQueue_run_reports pending' _ Hd'), He'.
  rewrite reports_of_events_blocks, map_app.
  rewrite (run_event_block_fits _ Hfit), (run_event_block_fits _ Hfits).
  now rewrite <- app_assoc.
Qed.

Lemma reports_delivered_once_in_order_witness :
  exists pending',
    delegate
      (fold_left (fun st ev => run_queue_event ev st)
         [ev_report call_reportFullscreen; ev_turn;
          ev_report (call_reportSizeChanged (NSMakeSize (2561 # 2) 720));
          ev_report call_reportClose]
         Sample.opened)
    = Some pending' /\
    reported
      (eventQueue_run (length pending')
         (fold_left (fun st ev => run_queue_event ev st)
            [ev_report call_reportFullscreen; ev_turn;
             ev_report (call_reportSizeChanged (NSMakeSize (2561 # 2) 720));
             ev_report call_reportClose]
            Sample.opened))
    = [vout_window_ReportFullscreen; vout_window_ReportSize 1280 720;
       vout_window_ReportClose].
Proof.
  refine (reports_delivered_once_in_order
            [ev_report call_reportFullscreen; ev_turn;
             ev_report (call_reportSizeChanged (NSMakeSize (2561 # 2) 720));
             ev_report call_reportClose]
            Sample.opened [] eq_refl eq_refl (List.Forall_nil _) _).
  repeat constructor; unfold Qle, Qlt; cbn; lia.
Defined.

End Reports.

(** ** An open module stays open *)
Section OpenModule.

Lemma run_main_block_deadlock (block : MainBlock) (st : State) :
  eventQueue_deadlock (run_main_block block st) = eventQueue_deadlock st.
Proof.
  destruct block; cbn [run_main_block]; unfold to_weakWc;
    destruct (sys_windowController st); try reflexivity;
    unfold showWindowWithConfig, setWindowDecorated, setWindowFullscreen,
      toggleFullScreen, on_window, to_moduleDelegate, isWindowFullscreen;
    repeat match goal with
           | |- context [match ?x with _ => _ end] =>
               destruct x eqn:?; cbn in *
           end; reflexivity.
Qed.

Lemma kept_run_main_block type received block st :
  kept type received st ->
  kept type received (run_main_block block st).
Proof.
  intros ((Hops & Hsys & Hwc & Hsd & Hd & Hw) & Hdl & Htype & (more & Hr)).
  destruct (run_main_block_frame block st)
    as (F1 & F2 & F3 & F4 & F5 & _ & F7 & _).
  destruct (run_main_block_delegate block st) as (_ & Hd').
  destruct (window st) as [w |] eqn:Hwin; [| congruence].
  destruct (run_main_block_window block st w Hwin) as (w' & Hwin' & _).
  cbv zeta in *.
  repeat split; try congruence.
  - now apply Hd'.
  - now rewrite run_main_block_deadlock.
  - exists more. congruence.
Qed.

Lemma kept_fold_main_blocks type received blocks st :
  kept type received st ->
  kept type received
    (fold_left (fun st block => run_main_block block st) blocks st).
Proof.
  revert st. induction blocks as [| block blocks IH]; intros st H;
    [exact H |].
  cbn [fold_left]. apply IH. now apply kept_run_main_block.
Qed.

Lemma kept_set_mainQueue type received q st :
  kept type received st ->
  kept type received (set_mainQueue q st).
Proof. intros H. exact H. Qed.

(** A message to the delegate keeps the module as it is. *)
Lemma kept_to_moduleDelegate type received method st :
  kept type received st ->
  kept type received (to_moduleDelegate method st).
Proof.
  intros ((Hops & Hsys & Hwc & Hsd & Hd & Hw) & Hdl & Htype & Hr).
  unfold to_moduleDelegate.
  destruct (delegate st) as [pending |] eqn:Hdel; [| congruence].
  repeat split; state_simpl; try assumption; discriminate.
Qed.

(** So does a change of the window. *)
Lemma kept_on_window type received f st :
  kept type received st ->
  kept type received (on_window f st).
Proof.
  intros ((Hops & Hsys & Hwc & Hsd & Hd & Hw) & Hdl & Htype & Hr).
  unfold on_window. destruct (window st) as [w |] eqn:Hwin; [| congruence].
  repeat split; state_simpl; try assumption; discriminate.
Qed.

Lemma kept_reportBackingSize type received st :
  kept type received st ->
  kept type received (reportBackingSize st).
Proof.
  intros H. unfold reportBackingSize. destruct (window st); [| exact H].
  now apply kept_to_moduleDelegate.
Qed.

Lemma kept_late_call type received call st :
  kept type received st ->
  kept type received (late_call call st).
Proof.
  intros H.
  destruct call; cbn [late_call]; unfold windowShouldClose,
    windowDidEnterFullScreen, windowDidExitFullScreen,
    resizeSubviewsWithOldSize, viewDidChangeBackingProperties; cbn [snd];
    try (now apply kept_to_moduleDelegate);
    try (now apply kept_reportBackingSize).
  destruct H as ((Hops & Hsys & Hwc & Hsd & Hd & Hw) & Hdl & Htype
                 & (more & Hr)).
  unfold eventQueue_step.
  destruct (delegate st) as [[| block rest] |] eqn:Hdel; [| | congruence].
  - repeat split; try assumption; try congruence; eauto.
  - state_simpl.
    assert (Hstay : kept type received
              (set_delegate (Some rest)
                 (set_reported (reported st ++ [run_event_block block])
                    st))).
    { repeat split; state_simpl; try assumption; try discriminate.
      exists (more ++ [run_event_block block]).
      now rewrite Hr, <- app_assoc. }
    destruct rest; [rewrite Hsd |]; exact Hstay.
Qed.

Lemma kept_perform type received a st :
  kept type received st ->
  kept type received (perform a st).
Proof.
  intros H. destruct a; cbn [perform];
    unfold WindowEnable, WindowDisable, WindowResize, SetDecoration,
      WindowSetFullscreen, WindowUnsetFullscreen, WindowSetTitle,
      dispatch_async_main, dispatch_sync_main, drain_main; cbn [snd];
    try (now apply kept_set_mainQueue).
  - apply kept_run_main_block, kept_fold_main_blocks.
    now apply kept_set_mainQueue.
  - unfold main_queue_step. destruct (mainQueue st); [exact H |].
    apply kept_run_main_block. now apply kept_set_mainQueue.
  - now apply kept_late_call.
  - unfold resizeSubviewsWithOldSize.
    now apply kept_reportBackingSize, kept_on_window.
  - unfold viewDidChangeBackingProperties.
    now apply kept_reportBackingSize, kept_on_window.
  - unfold windowDidEnterFullScreen, windowDidExitFullScreen.
    destruct (isWindowFullscreen _);
      now apply kept_to_moduleDelegate, kept_on_window.
Qed.

(** X12: an open module stays open.  Whatever the engine requests, the
    main thread serves, the window and its view call back, AppKit does to
    the window (another size, another screen, the end of a fullscreen
    transition) and the event queue runs, in any order and number, the
    module keeps its operations table, its two references, its delegate and
    its window, the event queue never gets stuck in [dealloc], the window
    type handed to the engine stays, and the reports the engine has
    received are only extended, never retracted or reordered. *)
Theorem open_module_stays_open (activities : list Activity) (st : State) :
  module_open st ->
  eventQueue_deadlock st = false ->
  let st' := fold_left (fun st a => perform a st) activities st in
  module_open st' /\
  eventQueue_deadlock st' = false /\
  wnd_type st' = wnd_type st /\
  exists more, reported st' = reported st ++ more.
Proof.
  intros Hopen Hdl st'. subst st'.
  assert (H : kept (wnd_type st) (reported st) st).
  { repeat split; try apply Hopen; try assumption.
    exists []. now rewrite app_nil_r. }
  clear Hopen Hdl. revert H.
  generalize (wnd_type st) as type, (reported st) as r.
  intros type r. revert st.
  induction activities as [| a activities IH]; intros st H; [exact H |].
  cbn [fold_left]. apply IH. now apply kept_perform.
Qed.

End OpenModule.

Lemma open_module_stays_open_witness :
  module_open
    (fold_left (fun st a => perform a st)
       [engine_WindowSetFullscreen; engine_WindowResize 640 480;
        ui_side late_windowShouldClose; main_thread_turn;
        screen_changes 1; user_resizes (NSMakeSize 800 600);
        engine_WindowEnable Sample.cfg_720p; ui_side late_eventQueue_turn]
       Sample.opened) /\
  eventQueue_deadlock
    (fold_left (fun st a => perform a st)
       [engine_WindowSetFullscreen; engine_WindowResize 640 480;
        ui_side late_windowShouldClose; main_thread_turn;
        screen_changes 1; user_resizes (NSMakeSize 800 600);
        engine_WindowEnable Sample.cfg_720p; ui_side late_eventQueue_turn]
       Sample.opened)
  = false.
Proof.
  assert (Hopen : module_open Sample.opened)
    by (repeat split; discriminate).
  destruct (open_module_stays_open
              [engine_WindowSetFullscreen; engine_WindowResize 640 480;
               ui_side late_windowShouldClose; main_thread_turn;
               screen_changes 1; user_resizes (NSMakeSize 800 600);
               engine_WindowEnable Sample.cfg_720p;
               ui_side late_eventQueue_turn]
              Sample.opened Hopen eq_refl) as (Hm & Hdl & _).
  exact (conj Hm Hdl).
Defined.

(** ** Closing the module *)
Section Closing.



End Closing.

(** ** The fullscreen test *)
Section FullscreenBit.

Lemma land_bit (m : Z) (n : Z) :
  0 <= n ->
  Z.land m (Z.shiftl 1 n) = if Z.testbit m n then Z.shiftl 1 n else 0.
Proof.
  intros Hn. rewrite Z.shiftl_1_l. apply Z.bits_inj'. intros k Hk.
  rewrite Z.land_spec, Z.pow2_bits_eqb by exact Hn.
  destruct (Z.eqb_spec n k) as [-> | Hne].
  - destruct (Z.testbit m k) eqn:E.
    + now rewrite Z.pow2_bits_true.
    + now rewrite Z.bits_0.
  - rewrite Bool.andb_false_r.
    destruct (Z.testbit m n).
    + now rewrite Z.pow2_bits_false.
    + now rewrite Z.bits_0.
Qed.

(** X14: [isWindowFullscreen] looks at one bit.  The window counts as
    fullscreen exactly when bit 14 of its style mask is set, whatever the
    decoration bits; so the masks [setWindowDecorated:] installs are never
    fullscreen, and either of them with the fullscreen bit added is. *)
Theorem isWindowFullscreen_bit (st : State) (decorated : bool) :
  let mask :=
    if decorated then decoratedWindowStyleMask
    else undecoratedWindowStyleMask in
  isWindowFullscreen st
  = match window st with
    | Some w => Z.testbit (styleMask w) 14
    | None => false
    end /\
  isWindowFullscreen (setWindowDecorated decorated st) = false /\
  isWindowFullscreen
    (on_window (set_styleMask (Z.lor mask NSFullScreenWindowMask)) st)
  = match window st with
    | Some _ => true
    | None => false
    end.
Proof.
  intros mask.
  assert (Hbit : forall w,
            (Z.land (styleMask w) NSFullScreenWindowMask
             =? NSFullScreenWindowMask) = Z.testbit (styleMask w) 14).
  { intros w. unfold NSFullScreenWindowMask.
    rewrite land_bit by lia. now destruct (Z.testbit (styleMask w) 14). }
  unfold isWindowFullscreen, setWindowDecorated, on_window.
  destruct (window st) as [w |] eqn:Hw; state_simpl; rewrite ?Hw.
  - rewrite !Hbit. state_simpl. split; [reflexivity |].
    subst mask. destruct decorated; split; reflexivity.
  - split; [reflexivity |]. split; reflexivity.
Qed.

End FullscreenBit.
